(** * arcopilot: denial-code guidance, RCM comment generation and the
    patient-account store.

    Shallow embedding of
    - [client/src/lib/denial-codes.ts]: the [denialCodeMappings] table,
      [insuranceOptions], [parseQAResponse], [parseCoordinationOfBenefitsResponse],
      [improveAdditionalNotes], [generateRCMComment], [getInsuranceLabel];
    - [shared/schema.ts]: the drizzle table [patientAccounts] and the zod
      schemas derived from it ([insertPatientAccountSchema],
      [updatePatientAccountSchema]);
    - [server/storage.ts]: [MemStorage] (patient-account part);
    - [server/routes.ts]: the patient-account endpoints.

    JavaScript strings are modelled as Rocq strings of 8-bit code units.
    The case maps ([toLowerCase], [toUpperCase]) are modelled on the ASCII
    letters; whitespace ([\s], [trim]) is the set of code units below 256
    that JavaScript treats as whitespace. *)

From Stdlib Require Import String Ascii ZArith.
From stdpp Require Import base gmap strings list.

Open Scope string_scope.

(* ------------------------------------------------------------------ *)
(** ** The denial-code table ([denialCodeMappings]) *)

Module DenialCodes.







End DenialCodes.

(* ------------------------------------------------------------------ *)
(** ** JavaScript string primitives used by [denial-codes.ts] *)

Module JsString.

(** [\s] and [String.prototype.trim] whitespace (code units < 256). *)
Definition is_ws (c : ascii) : bool :=
  let n := nat_of_ascii c in
  ((Nat.leb 9 n) && (Nat.leb n 13)) || (Nat.eqb n 32) || (Nat.eqb n 160).

(** [\w]: [A-Za-z0-9_]; [\b] is a change of [\w]-ness. *)
Definition is_word (c : ascii) : bool :=
  let n := nat_of_ascii c in
  ((Nat.leb 65 n) && (Nat.leb n 90)) || ((Nat.leb 97 n) && (Nat.leb n 122))
  || ((Nat.leb 48 n) && (Nat.leb n 57)) || (Nat.eqb n 95).

Definition is_digit (c : ascii) : bool :=
  let n := nat_of_ascii c in (Nat.leb 48 n) && (Nat.leb n 57).

Definition word_at (c : option ascii) : bool :=
  match c with Some c => is_word c | None => false end.

Definition boundary (before after : option ascii) : bool :=
  xorb (word_at before) (word_at after).

Definition to_lower_char (c : ascii) : ascii :=
  let n := nat_of_ascii c in
  if (Nat.leb 65 n) && (Nat.leb n 90) then ascii_of_nat (n + 32) else c.

Definition to_upper_char (c : ascii) : ascii :=
  let n := nat_of_ascii c in
  if (Nat.leb 97 n) && (Nat.leb n 122) then ascii_of_nat (n - 32) else c.

Fixpoint toLowerCase (s : string) : string :=
  match s with
  | EmptyString => EmptyString
  | String c s' => String (to_lower_char c) (toLowerCase s')
  end.

Fixpoint trimStart (s : string) : string :=
  match s with
  | String c s' => if is_ws c then trimStart s' else s
  | EmptyString => EmptyString
  end.

Fixpoint rev_str (s : string) : string :=
  match s with
  | EmptyString => EmptyString
  | String c s' => rev_str s' +:+ String c EmptyString
  end.

Definition trim (s : string) : string := rev_str (trimStart (rev_str (trimStart s))).

Fixpoint sdrop (n : nat) (s : string) : string :=
  match n, s with
  | S n', String _ s' => sdrop n' s'
  | _, _ => s
  end.

Fixpoint stake (n : nat) (s : string) : string :=
  match n, s with
  | S n', String c s' => String c (stake n' s')
  | _, _ => EmptyString
  end.

Definition head_char (s : string) : option ascii :=
  match s with String c _ => Some c | EmptyString => None end.

Fixpoint last_char (s : string) : option ascii :=
  match s with
  | EmptyString => None
  | String c EmptyString => Some c
  | String _ s' => last_char s'
  end.

(** Case-insensitive prefix test (the [i] flag of a regular expression). *)
Fixpoint prefix_ci (p s : string) : bool :=
  match p, s with
  | EmptyString, _ => true
  | String a p', String b s' =>
      Ascii.eqb (to_lower_char a) (to_lower_char b) && prefix_ci p' s'
  | String _ _, EmptyString => false
  end.

(** [/lit/i.test(s)]. *)
Fixpoint contains_ci (p s : string) : bool :=
  prefix_ci p s ||
  match s with String _ s' => contains_ci p s' | EmptyString => false end.

(** [s.includes(p)] (case-sensitive). *)
Fixpoint includes (s p : string) : bool :=
  String.prefix p s ||
  match s with String _ s' => includes s' p | EmptyString => false end.

Definition is_line_terminator (c : ascii) : bool :=
  let n := nat_of_ascii c in (Nat.eqb n 10) || (Nat.eqb n 13).

(** The text up to the first line terminator: what [.*] can span. *)
Fixpoint line_prefix (s : string) : string :=
  match s with
  | String c s' => if is_line_terminator c then EmptyString else String c (line_prefix s')
  | EmptyString => EmptyString
  end.

(** [/a.*b/i.test(s)]. *)
Fixpoint contains_dotstar_ci (a b s : string) : bool :=
  (prefix_ci a s && contains_ci b (line_prefix (sdrop (String.length a) s))) ||
  match s with String _ s' => contains_dotstar_ci a b s' | EmptyString => false end.

Fixpoint count_while (f : ascii -> bool) (s : string) : nat :=
  match s with
  | String c s' => if f c then S (count_while f s') else 0
  | EmptyString => 0
  end.

Fixpoint join (sep : string) (xs : list string) : string :=
  match xs with
  | [] => ""
  | [x] => x
  | x :: xs' => x +:+ sep +:+ join sep xs'
  end.

End JsString.

(* ------------------------------------------------------------------ *)
(** ** Notes clean-up: [improveAdditionalNotes], [parseQAResponse] *)

Module Notes.
Import JsString.

(** The regular expressions of [improveAdditionalNotes] are sequences of
    these items.  Every [\s+], [\s*] or [\d+] is followed by a literal that
    does not start with a character of its class, or ends the pattern, so
    the greedy longest run is the only run the backtracking matcher can
    use; the matcher below is therefore deterministic. *)
Inductive tok :=
  | TBound                (* \b *)
  | TLit (l : string)     (* literal text, matched case-insensitively *)
  | TWs1                  (* \s+ *)
  | TWs0                  (* \s* *)
  | TDigits1              (* (\d+)  captured *)
  | TDigits8.             (* (\d{8}) captured *)

(** The character before the next position after consuming [k] characters
    of [s], starting after [prev]. *)
Definition prev_after (prev : option ascii) (k : nat) (s : string) : option ascii :=
  match k with 0 => prev | S k' => String.get k' s end.

(** Match [ts] at the start of [s]; [prev] is the character before [s].
    Result: length of the match and the captured groups. *)
Fixpoint match_toks (ts : list tok) (prev : option ascii) (s : string)
    : option (nat * list string) :=
  match ts with
  | [] => Some (0, [])
  | TBound :: ts' =>
      if boundary prev (head_char s) then match_toks ts' prev s else None
  | TLit l :: ts' =>
      if prefix_ci l s then
        let k := String.length l in
        match match_toks ts' (prev_after prev k s) (sdrop k s) with
        | Some (n, caps) => Some (k + n, caps)
        | None => None
        end
      else None
  | TWs1 :: ts' =>
      let k := count_while is_ws s in
      if Nat.eqb k 0 then None else
      match match_toks ts' (prev_after prev k s) (sdrop k s) with
      | Some (n, caps) => Some (k + n, caps)
      | None => None
      end
  | TWs0 :: ts' =>
      let k := count_while is_ws s in
      match match_toks ts' (prev_after prev k s) (sdrop k s) with
      | Some (n, caps) => Some (k + n, caps)
      | None => None
      end
  | TDigits1 :: ts' =>
      let k := count_while is_digit s in
      if Nat.eqb k 0 then None else
      match match_toks ts' (prev_after prev k s) (sdrop k s) with
      | Some (n, caps) => Some (k + n, stake k s :: caps)
      | None => None
      end
  | TDigits8 :: ts' =>
      if Nat.leb 8 (count_while is_digit s) then
        match match_toks ts' (prev_after prev 8 s) (sdrop 8 s) with
        | Some (n, caps) => Some (8 + n, stake 8 s :: caps)
        | None => None
        end
      else None
  end.

(** [s.replace(/pattern/gi, replacer)]: scan left to right, replace each
    non-overlapping match, resume after it (matches are non-empty). *)
Fixpoint gsub_go (fuel : nat) (ts : list tok) (repl : list string -> string)
    (prev : option ascii) (s : string) : string :=
  match fuel with
  | 0 => s
  | S fuel' =>
      match s with
      | EmptyString => EmptyString
      | String c s' =>
          match match_toks ts prev s with
          | Some (S n', caps) =>
              repl caps +:+ gsub_go fuel' ts repl (String.get n' s) (sdrop (S n') s)
          | _ => String c (gsub_go fuel' ts repl (Some c) s')
          end
      end
  end.

Definition gsub (ts : list tok) (repl : list string -> string) (s : string) : string :=
  gsub_go (String.length s) ts repl None s.

(** [const improvements = {...}] in its insertion (= iteration) order. *)
Definition improvements : list (string * string) := [
  ("dup", "duplicate"); ("prev", "previous"); ("claiim", "claim");
  ("suibmit", "submitted"); ("submited", "submitted"); ("recieved", "received");
  ("payed", "paid"); ("approvel", "approval"); ("authorizaton", "authorization");
  ("necesary", "necessary"); ("seperately", "separately"); ("seperete", "separate");
  ("w/", "with"); ("pt", "patient"); ("dx", "diagnosis"); ("proc", "procedure");
  ("auth", "authorization"); ("pre-auth", "pre-authorization");
  ("reimb", "reimbursement"); ("coord", "coordination"); ("benefts", "benefits");
  ("eligibilty", "eligibility"); ("mcr", "Medicare"); ("prim", "primary");
  ("biled", "billed")].

(** [new RegExp(`\\b${wrong}\\b`, 'gi')] with [replace(regex, correct)]. *)
Definition apply_improvement (acc : string) (wc : string * string) : string :=
  gsub [TBound; TLit wc.1; TBound] (fun _ => wc.2) acc.

Definition cap (i : nat) (caps : list string) : string :=
  match nth_error caps i with Some c => c | None => "" end.

(** The replacer of [/\bsubmit\s+on\s+(\d{8})/gi]: DDMMYYYY to MM/DD/YYYY. *)
Definition submit_on_repl (caps : list string) : string :=
  let date := cap 0 caps in
  if Nat.eqb (String.length date) 8 then
    let day := stake 2 date in
    let month := stake 2 (sdrop 2 date) in
    let year := stake 4 (sdrop 4 date) in
    "submitted on " +:+ month +:+ "/" +:+ day +:+ "/" +:+ year
  else "submit on " +:+ date.

(** The chain of "common pattern" replacements, then [.trim()]. *)
Definition fix_patterns (s : string) : string :=
  let s1 := gsub [TBound; TLit "no"; TWs1; TLit "void"; TWs1; TLit "any"; TWs1;
                  TLit "claim"; TBound] (fun _ => "do not void any claims") s in
  let s2 := gsub [TBound; TLit "yes"; TWs1; TLit "true"; TWs1; TLit "duplicate"; TBound]
                 (fun _ => "confirmed true duplicate") s1 in
  let s3 := gsub [TBound; TLit "other"; TWs1; TLit "claim"; TWs0; TLit "#"; TWs0; TDigits1]
                 (fun caps => "other claim #" +:+ cap 0 caps) s2 in
  let s4 := gsub [TBound; TLit "submit"; TWs1; TLit "on"; TWs1; TDigits8] submit_on_repl s3 in
  let s5 := gsub [TBound; TLit "paid"; TWs1; TLit "out"; TBound] (fun _ => "paid in full") s4 in
  let s6 := gsub [TWs1] (fun _ => " ") s5 in
  trim s6.

(** [improved.charAt(0).toUpperCase() + improved.slice(1)]. *)
Definition capitalize (s : string) : string :=
  match s with
  | String c s' => String (to_upper_char c) s'
  | EmptyString => EmptyString
  end.

(** [improved.match(/[.!?]$/)]. *)
Definition ends_with_punct (s : string) : bool :=
  match last_char s with
  | Some c => Ascii.eqb c "." || Ascii.eqb c "!" || Ascii.eqb c "?"
  | None => false
  end.

(** [!notes || notes.trim().length === 0] for a string [notes]. *)
Definition is_blank (s : string) : bool := String.eqb (trim s) "".

Definition improveAdditionalNotes (notes : string) : string :=
  if is_blank notes then "" else
  let improved := trim (toLowerCase notes) in
  let improved := fold_left apply_improvement improvements improved in
  let improved := fix_patterns improved in
  let improved := capitalize improved in
  if ends_with_punct improved then improved else improved +:+ ".".

End Notes.

(* ------------------------------------------------------------------ *)
(** ** RCM comment generation ([generateRCMComment]) *)

Module Comment.
Import JsString Notes.

(** The items of [qaPatterns]: [/lit/i] or [/a.*b/i]. *)
Inductive qa_pattern :=
  | QLit (l : string)
  | QDotStar (a b : string).

Definition qa_test (p : qa_pattern) (s : string) : bool :=
  match p with
  | QLit l => contains_ci l s
  | QDotStar a b => contains_dotstar_ci a b s
  end.

Definition qaPatterns : list qa_pattern :=
  [QLit "medicare"; QLit "mcr"; QLit "aetna"; QDotStar "no" "billed";
   QLit "primary"; QLit "secondary"; QLit "1st"; QLit "2nd";
   QDotStar "never" "billed"; QLit "cob"; QLit "coordination"].

Definition parseCoordinationOfBenefitsResponse (notes : string) : string :=
  let lowerNotes := toLowerCase notes in
  let has := includes lowerNotes in
  let insuranceNames :=
    ((if has "medicare" || has "mcr" then ["Medicare"] else [])
     ++ (if has "aetna" then ["Aetna"] else [])
     ++ (if has "bcbs" || has "blue cross" then ["Blue Cross Blue Shield"] else [])
     ++ (if has "uhc" || has "united" then ["United Healthcare"] else []))%list in
  let primaryInsurance :=
    if has "medicare" && (has "primary" || has "1st") then "Medicare"
    else match insuranceNames with n :: _ => n | [] => "" end in
  let primaryNotBilled := has "never billed" || has "not billed" || has "no prim" in
  let response :=
    match insuranceNames with
    | [] => ""
    | [n] => "Patient has " +:+ n +:+ ". "
    | _ => "Patient has " +:+ join " and " insuranceNames +:+ ". "
    end in
  let response :=
    if String.eqb primaryInsurance "" then response
    else response +:+ primaryInsurance +:+ " should be primary"
         +:+ (if primaryNotBilled then ", but it was not billed first. " else ". ") in
  let response :=
    if Nat.ltb 1 (length insuranceNames) then
      match find (fun name => negb (String.eqb name primaryInsurance)) insuranceNames with
      | Some secondary =>
          response +:+ "COB order is " +:+ primaryInsurance +:+ " primary, then "
                   +:+ secondary +:+ " secondary."
      | None => response
      end
    else response in
  if String.eqb response "" then improveAdditionalNotes notes else response.

(** [parseQAResponse(notes, denialCode)]; [None] is [undefined]/[null]. *)
Definition parseQAResponse (notes : option string) (denialCode : option string) : string :=
  match notes with
  | None => ""
  | Some n =>
      if is_blank n then "" else
      let hasQAFormat := existsb (fun p => qa_test p n) qaPatterns in
      if hasQAFormat && bool_decide (denialCode = Some "CO-22")
      then parseCoordinationOfBenefitsResponse n
      else improveAdditionalNotes n
  end.

(** [insuranceOptions] (value, label).  The source sorts the array by label;
    the order does not matter to [getInsuranceLabel], which searches by the
    (pairwise distinct) values. *)
Definition insuranceOptions : list (string * string) := [
  ("aetna", "Aetna"); ("amerigroup", "Amerigroup"); ("anthem", "Anthem");
  ("bcbs", "Blue Cross Blue Shield"); ("centene", "Centene"); ("cigna", "Cigna");
  ("coventry", "Coventry Health Care"); ("elevance", "Elevance Health");
  ("healthnet", "Health Net"); ("humana", "Humana");
  ("independence", "Independence Blue Cross"); ("kaiser", "Kaiser Permanente");
  ("medicaid", "Medicaid"); ("medicare", "Medicare"); ("molina", "Molina Healthcare");
  ("oscar", "Oscar Health"); ("tricare", "TRICARE"); ("uhc", "United Healthcare (UHC)");
  ("wellcare", "WellCare"); ("other", "Other")].

Definition getInsuranceLabel (value : option string) : option string :=
  match value with
  | None => None
  | Some v =>
      match find (fun opt => String.eqb opt.1 v) insuranceOptions with
      | Some opt => Some opt.2
      | None => Some v
      end
  end.

(** The form values passed to [generateRCMComment] ([FormData] of the form
    schema, or a stored account): [None] is [undefined] or [null]. *)
Record FormData := {
  patientName : option string;
  accountNumber : option string;
  insuranceName : option string;
  repName : option string;
  callReference : option string;
  denialCode : option string;
  denialDescription : option string;
  dateOfService : option string;
  eligibilityFromDate : option string;
  eligibilityStatus : option string;
  additionalNotes : option string
}.

(** [x || "default"] on an optional string: [undefined], [null] and [""]
    are falsy. *)
Definition js_or (x : option string) (d : string) : string :=
  match x with
  | Some s => if String.eqb s "" then d else s
  | None => d
  end.

Definition is_code (c : string) (x : option string) : bool :=
  bool_decide (x = Some c).

(** The [switch (formData.denialCode)] of [generateRCMComment]. *)
Definition specificComment (formData : FormData) : string :=
  let c := formData.(denialCode) in
  if is_code "CO-4" c then "Modifier issue identified. Procedure code requires correct modifier for reimbursement"
  else if is_code "CO-6" c then "Age-related procedure code issue. Service not appropriate for patient age"
  else if is_code "CO-11" c then "Diagnosis-procedure mismatch. Additional documentation required to support procedure"
  else if is_code "CO-15" c then "Authorization missing or invalid. Valid authorization required for reimbursement"
  else if is_code "CO-16" c then "Missing/incorrect information identified. Correction and resubmission required"
  else if is_code "CO-18" c then "Duplicate claim identified. Original claim already processed"
  else if is_code "CO-22" c then "COB issue - other payer primary. Primary insurance must be billed first"
  else if is_code "CO-23" c then "Prior payer adjudication affects payment. Review primary payer payment details"
  else if is_code "CO-27" c then
    "Eligibility " +:+ js_or formData.(eligibilityStatus) "inactive" +:+ " as of "
    +:+ js_or formData.(eligibilityFromDate) "[Date]"
    +:+ ". Coverage terminated prior to DOS. Patient responsibility confirmed"
  else if is_code "CO-29" c then "Timely filing deadline exceeded. Claim submitted beyond payer deadline"
  else if is_code "CO-31" c then "Patient identification issue. Member demographics require verification"
  else if is_code "CO-45" c then "Charge exceeds fee schedule. Payment adjusted to contracted rate"
  else if is_code "CO-50" c then "Medical necessity criteria not met per payer guidelines. Additional documentation required for appeal"
  else if is_code "CO-96" c then "Non-covered service per plan benefits. Plan exclusion applies"
  else if is_code "CO-97" c then "Service bundled with primary procedure per payer policy. No additional payment available"
  else if is_code "CO-109" c then "Wrong payer - claim must go to correct insurance carrier"
  else if is_code "CO-151" c then "Service frequency exceeds guidelines. Medical necessity required for additional units"
  else if is_code "CO-167" c then "Diagnosis not covered per plan benefits. Review covered diagnosis list"
  else if is_code "CO-170" c then "Provider type restriction. Service not covered when performed by this provider type"
  else if is_code "PR-1" c then "Patient deductible responsibility. Annual deductible not met"
  else if is_code "PR-2" c then "Patient coinsurance responsibility per plan benefits"
  else if is_code "PR-3" c then "Patient copay responsibility confirmed"
  else if is_code "PR-204" c then "Service not covered under current plan benefits. Plan exclusion confirmed"
  else "Denial documented per rep guidance".

Definition generateRCMComment (formData : FormData) : string :=
  let repName' := js_or formData.(repName) "[Rep Name]" in
  let insuranceName' := js_or (getInsuranceLabel formData.(insuranceName)) "[Insurance]" in
  let denialCode' := js_or formData.(denialCode) "[Code]" in
  let callReference' := js_or formData.(callReference) "[Reference]" in
  let specificComment' := specificComment formData in
  let improvedNotes := parseQAResponse formData.(additionalNotes) formData.(denialCode) in
  let additionalInfo :=
    if String.eqb improvedNotes "" then "" else " Additional notes: " +:+ improvedNotes in
  "Spoke with " +:+ repName' +:+ " from " +:+ insuranceName' +:+ " - " +:+ denialCode'
  +:+ ": " +:+ specificComment' +:+ "." +:+ additionalInfo +:+ " Call ref #" +:+ callReference'.

End Comment.

(* ------------------------------------------------------------------ *)
(** ** Patient accounts: schema, [MemStorage], routes *)

Module Accounts.

(** A JSON value of a request body field, as far as the zod string
    schemas distinguish them: [JOther] is a number, boolean, array or
    object. *)
Inductive json :=
  | JNull
  | JStr (s : string)
  | JOther.

(** The parsed request body ([req.body], a JSON object; unknown keys are
    stripped by zod's object parser). *)
Abbreviation body := (gmap string json).

(** A column value of a nullable [text] column: [None] is an absent key
    ([undefined]), [Some None] is [null]. *)
Abbreviation nullable := (option (option string)).

(** [typeof patientAccounts.$inferSelect] as stored by [MemStorage];
    timestamps are [Date]s, modelled as integers. *)
Record PatientAccount := {
  id : Z;
  patientName : string;
  accountNumber : string;
  insuranceName : string;
  repName : nullable;
  callReference : nullable;
  denialCode : nullable;
  denialDescription : nullable;
  dateOfService : nullable;
  eligibilityFromDate : nullable;
  eligibilityStatus : nullable;
  additionalNotes : nullable;
  sessionId : string;
  createdAt : Z;
  updatedAt : Z
}.

(** [InsertPatientAccount]: the table without [id], [createdAt], [updatedAt]. *)
Record InsertPatientAccount := {
  i_patientName : string;
  i_accountNumber : string;
  i_insuranceName : string;
  i_repName : nullable;
  i_callReference : nullable;
  i_denialCode : nullable;
  i_denialDescription : nullable;
  i_dateOfService : nullable;
  i_eligibilityFromDate : nullable;
  i_eligibilityStatus : nullable;
  i_additionalNotes : nullable;
  i_sessionId : string
}.

(** [UpdatePatientAccount = Partial<InsertPatientAccount>]: [None] is a
    field the update does not supply. *)
Record UpdatePatientAccount := {
  u_patientName : option string;
  u_accountNumber : option string;
  u_insuranceName : option string;
  u_repName : option nullable;
  u_callReference : option nullable;
  u_denialCode : option nullable;
  u_denialDescription : option nullable;
  u_dateOfService : option nullable;
  u_eligibilityFromDate : option nullable;
  u_eligibilityStatus : option nullable;
  u_additionalNotes : option nullable;
  u_sessionId : option string
}.

(** zod schemas produced by drizzle-zod's [createInsertSchema] for the
    columns: a [text(...).notNull()] column gives [z.string()], a nullable
    [text] column gives [z.string().nullable().optional()]; [.partial()]
    makes every field [.optional()]. *)
Definition z_string (v : option json) : option string :=
  match v with Some (JStr s) => Some s | _ => None end.

Definition z_string_optional (v : option json) : option (option string) :=
  match v with
  | None => Some None
  | Some (JStr s) => Some (Some s)
  | Some _ => None
  end.

Definition z_string_nullable_optional (v : option json) : option nullable :=
  match v with
  | None => Some None
  | Some JNull => Some (Some None)
  | Some (JStr s) => Some (Some (Some s))
  | Some JOther => None
  end.

Definition z_string_nullable_optional_optional (v : option json) : option (option nullable) :=
  match v with
  | None => Some None
  | Some JNull => Some (Some (Some None))
  | Some (JStr s) => Some (Some (Some (Some s)))
  | Some JOther => None
  end.

(** [insertPatientAccountSchema.parse(req.body)]; [None] is a [ZodError]. *)
Definition insertPatientAccountSchema_parse (b : body) : option InsertPatientAccount :=
  pn ← z_string (b !! "patientName");
  an ← z_string (b !! "accountNumber");
  ins ← z_string (b !! "insuranceName");
  rn ← z_string_nullable_optional (b !! "repName");
  cr ← z_string_nullable_optional (b !! "callReference");
  dc ← z_string_nullable_optional (b !! "denialCode");
  dd ← z_string_nullable_optional (b !! "denialDescription");
  dos ← z_string_nullable_optional (b !! "dateOfService");
  efd ← z_string_nullable_optional (b !! "eligibilityFromDate");
  es ← z_string_nullable_optional (b !! "eligibilityStatus");
  notes ← z_string_nullable_optional (b !! "additionalNotes");
  sid ← z_string (b !! "sessionId");
  Some {| i_patientName := pn; i_accountNumber := an; i_insuranceName := ins;
          i_repName := rn; i_callReference := cr; i_denialCode := dc;
          i_denialDescription := dd; i_dateOfService := dos;
          i_eligibilityFromDate := efd; i_eligibilityStatus := es;
          i_additionalNotes := notes; i_sessionId := sid |}.

(** [updatePatientAccountSchema.parse(req.body)]. *)
Definition updatePatientAccountSchema_parse (b : body) : option UpdatePatientAccount :=
  pn ← z_string_optional (b !! "patientName");
  an ← z_string_optional (b !! "accountNumber");
  ins ← z_string_optional (b !! "insuranceName");
  rn ← z_string_nullable_optional_optional (b !! "repName");
  cr ← z_string_nullable_optional_optional (b !! "callReference");
  dc ← z_string_nullable_optional_optional (b !! "denialCode");
  dd ← z_string_nullable_optional_optional (b !! "denialDescription");
  dos ← z_string_nullable_optional_optional (b !! "dateOfService");
  efd ← z_string_nullable_optional_optional (b !! "eligibilityFromDate");
  es ← z_string_nullable_optional_optional (b !! "eligibilityStatus");
  notes ← z_string_nullable_optional_optional (b !! "additionalNotes");
  sid ← z_string_optional (b !! "sessionId");
  Some {| u_patientName := pn; u_accountNumber := an; u_insuranceName := ins;
          u_repName := rn; u_callReference := cr; u_denialCode := dc;
          u_denialDescription := dd; u_dateOfService := dos;
          u_eligibilityFromDate := efd; u_eligibilityStatus := es;
          u_additionalNotes := notes; u_sessionId := sid |}.

(** The patient-account part of [MemStorage]: the [Map<number,
    PatientAccount>] and the [currentAccountId] counter. *)
Record MemStorage := {
  patientAccounts : gmap Z PatientAccount;
  currentAccountId : Z
}.

(** [constructor()]. *)
Definition MemStorage_init : MemStorage :=
  {| patientAccounts := ∅; currentAccountId := 1 |}.

Definition getPatientAccount (st : MemStorage) (i : Z) : option PatientAccount :=
  st.(patientAccounts) !! i.

(** [createPatientAccount(insertAccount)] at time [now]. *)
Definition createPatientAccount (st : MemStorage) (a : InsertPatientAccount) (now : Z)
    : MemStorage * PatientAccount :=
  let i := st.(currentAccountId) in
  let account :=
    {| id := i; patientName := a.(i_patientName); accountNumber := a.(i_accountNumber);
       insuranceName := a.(i_insuranceName); repName := a.(i_repName);
       callReference := a.(i_callReference); denialCode := a.(i_denialCode);
       denialDescription := a.(i_denialDescription); dateOfService := a.(i_dateOfService);
       eligibilityFromDate := a.(i_eligibilityFromDate);
       eligibilityStatus := a.(i_eligibilityStatus);
       additionalNotes := a.(i_additionalNotes); sessionId := a.(i_sessionId);
       createdAt := now; updatedAt := now |} in
  ({| patientAccounts := <[i := account]> st.(patientAccounts);
      currentAccountId := i + 1 |}, account).

(** One field of [{ ...existing, ...updates }]. *)
Definition spread {A} (u : option A) (old : A) : A :=
  match u with Some v => v | None => old end.

(** [updatePatientAccount(id, updates)] at time [now]. *)
Definition updatePatientAccount (st : MemStorage) (i : Z) (u : UpdatePatientAccount) (now : Z)
    : MemStorage * option PatientAccount :=
  match st.(patientAccounts) !! i with
  | None => (st, None)
  | Some e =>
      let updated :=
        {| id := e.(id);
           patientName := spread u.(u_patientName) e.(patientName);
           accountNumber := spread u.(u_accountNumber) e.(accountNumber);
           insuranceName := spread u.(u_insuranceName) e.(insuranceName);
           repName := spread u.(u_repName) e.(repName);
           callReference := spread u.(u_callReference) e.(callReference);
           denialCode := spread u.(u_denialCode) e.(denialCode);
           denialDescription := spread u.(u_denialDescription) e.(denialDescription);
           dateOfService := spread u.(u_dateOfService) e.(dateOfService);
           eligibilityFromDate := spread u.(u_eligibilityFromDate) e.(eligibilityFromDate);
           eligibilityStatus := spread u.(u_eligibilityStatus) e.(eligibilityStatus);
           additionalNotes := spread u.(u_additionalNotes) e.(additionalNotes);
           sessionId := spread u.(u_sessionId) e.(sessionId);
           createdAt := e.(createdAt);
           updatedAt := now |} in
      ({| patientAccounts := <[i := updated]> st.(patientAccounts);
          currentAccountId := st.(currentAccountId) |}, Some updated)
  end.

(** [deletePatientAccount(id)]: [Map.prototype.delete]. *)
Definition deletePatientAccount (st : MemStorage) (i : Z) : MemStorage * bool :=
  match st.(patientAccounts) !! i with
  | None => (st, false)
  | Some _ => ({| patientAccounts := delete i st.(patientAccounts);
                 currentAccountId := st.(currentAccountId) |}, true)
  end.

(** HTTP responses of the account routes. *)
Inductive response :=
  | Ok200 (a : PatientAccount)
  | Created201 (a : PatientAccount)
  | NoContent204
  | InvalidData400
  | NotFound404.

(** [GET /api/accounts/detail/:id]; [i] is [parseInt(req.params.id)]. *)
Definition route_get_detail (st : MemStorage) (i : Z) : MemStorage * response :=
  match getPatientAccount st i with
  | None => (st, NotFound404)
  | Some a => (st, Ok200 a)
  end.

(** [POST /api/accounts]. *)
Definition route_create (st : MemStorage) (b : body) (now : Z) : MemStorage * response :=
  match insertPatientAccountSchema_parse b with
  | None => (st, InvalidData400)
  | Some a => let '(st', acc) := createPatientAccount st a now in (st', Created201 acc)
  end.

(** [PATCH /api/accounts/:id]: the body is validated before the lookup. *)
Definition route_update (st : MemStorage) (i : Z) (b : body) (now : Z) : MemStorage * response :=
  match updatePatientAccountSchema_parse b with
  | None => (st, InvalidData400)
  | Some u =>
      match updatePatientAccount st i u now with
      | (st', None) => (st', NotFound404)
      | (st', Some acc) => (st', Ok200 acc)
      end
  end.

(** [DELETE /api/accounts/:id]. *)
Definition route_delete (st : MemStorage) (i : Z) : MemStorage * response :=
  let '(st', deleted) := deletePatientAccount st i in
  (st', if deleted then NoContent204 else NotFound404).

End Accounts.

(* ------------------------------------------------------------------ *)
(** ** Vocabulary of the properties checked below *)

Module TableDefs.




End TableDefs.

Module CommentDefs.
Import JsString Comment.

(** The [case] labels of the [switch] in [generateRCMComment]. *)
Definition recognized_codes : list string :=
  ["CO-4"; "CO-6"; "CO-11"; "CO-15"; "CO-16"; "CO-18"; "CO-22"; "CO-23";
   "CO-27"; "CO-29"; "CO-31"; "CO-45"; "CO-50"; "CO-96"; "CO-97"; "CO-109";
   "CO-151"; "CO-167"; "CO-170"; "PR-1"; "PR-2"; "PR-3"; "PR-204"].

Definition fallback_comment : string := "Denial documented per rep guidance".

(** [s] ends with [p]. *)
Definition ends_with (s p : string) : Prop := exists x, s = x +:+ p.

(** The same form with other notes. *)
Definition with_notes (fd : FormData) (n : option string) : FormData :=
  {| patientName := fd.(patientName); accountNumber := fd.(accountNumber);
     insuranceName := fd.(insuranceName); repName := fd.(repName);
     callReference := fd.(callReference); denialCode := fd.(denialCode);
     denialDescription := fd.(denialDescription); dateOfService := fd.(dateOfService);
     eligibilityFromDate := fd.(eligibilityFromDate);
     eligibilityStatus := fd.(eligibilityStatus); additionalNotes := n |}.

(** Notes that are missing or empty after [trim()]. *)
Definition notes_blank (n : option string) : bool :=
  match n with None => true | Some s => String.eqb (trim s) "" end.

(** A field that is [undefined], [null] or [""]. *)
Definition missing (x : option string) : bool :=
  match x with None => true | Some s => String.eqb s "" end.

(** Two forms that agree on every field [generateRCMComment] reads. *)
Definition reads_same (fd fd' : FormData) : Prop :=
  fd.(repName) = fd'.(repName) /\ fd.(insuranceName) = fd'.(insuranceName)
  /\ fd.(denialCode) = fd'.(denialCode) /\ fd.(callReference) = fd'.(callReference)
  /\ fd.(eligibilityStatus) = fd'.(eligibilityStatus)
  /\ fd.(eligibilityFromDate) = fd'.(eligibilityFromDate)
  /\ fd.(additionalNotes) = fd'.(additionalNotes).

(** A form with only the given denial code and notes filled in. *)
Definition form_with (code notes : option string) : FormData :=
  {| patientName := None; accountNumber := None; insuranceName := None;
     repName := None; callReference := None; denialCode := code;
     denialDescription := None; dateOfService := None; eligibilityFromDate := None;
     eligibilityStatus := None; additionalNotes := notes |}.

End CommentDefs.

Module AccountsDefs.
Import Accounts.

(** A field the server requires: present and a JSON string (any string). *)
Definition required_string (v : option json) : Prop := exists s, v = Some (JStr s).

Definition nullable_keys : list string :=
  ["repName"; "callReference"; "denialCode"; "denialDescription"; "dateOfService";
   "eligibilityFromDate"; "eligibilityStatus"; "additionalNotes"].

(** The create-request condition as the corrected spec states it. *)
Definition insert_body_ok (b : body) : Prop :=
  required_string (b !! "patientName") /\ required_string (b !! "accountNumber")
  /\ required_string (b !! "insuranceName") /\ required_string (b !! "sessionId")
  /\ Forall (fun k => b !! k <> Some JOther) nullable_keys.

(** A field after a partial update: the supplied value, else the old one. *)
Definition field_ok {A} (u : option A) (old new : A) : Prop :=
  match u with Some v => new = v | None => new = old end.

Definition update_agrees (u : UpdatePatientAccount) (e a : PatientAccount) : Prop :=
  field_ok u.(u_patientName) e.(patientName) a.(patientName)
  /\ field_ok u.(u_accountNumber) e.(accountNumber) a.(accountNumber)
  /\ field_ok u.(u_insuranceName) e.(insuranceName) a.(insuranceName)
  /\ field_ok u.(u_repName) e.(repName) a.(repName)
  /\ field_ok u.(u_callReference) e.(callReference) a.(callReference)
  /\ field_ok u.(u_denialCode) e.(denialCode) a.(denialCode)
  /\ field_ok u.(u_denialDescription) e.(denialDescription) a.(denialDescription)
  /\ field_ok u.(u_dateOfService) e.(dateOfService) a.(dateOfService)
  /\ field_ok u.(u_eligibilityFromDate) e.(eligibilityFromDate) a.(eligibilityFromDate)
  /\ field_ok u.(u_eligibilityStatus) e.(eligibilityStatus) a.(eligibilityStatus)
  /\ field_ok u.(u_additionalNotes) e.(additionalNotes) a.(additionalNotes)
  /\ field_ok u.(u_sessionId) e.(sessionId) a.(sessionId).

(** Requests to the account endpoints, each with its arrival time. *)
Inductive request :=
  | RGet (i : Z)
  | RCreate (b : body) (now : Z)
  | RUpdate (i : Z) (b : body) (now : Z)
  | RDelete (i : Z).

(** Serve one request; report the account a successful create made, with
    the time of the request. *)
Definition serve (st : MemStorage) (r : request) : MemStorage * option (PatientAccount * Z) :=
  match r with
  | RGet i => ((route_get_detail st i).1, None)
  | RCreate b now =>
      match route_create st b now with
      | (st', Created201 a) => (st', Some (a, now))
      | (st', _) => (st', None)
      end
  | RUpdate i b now => ((route_update st i b now).1, None)
  | RDelete i => ((route_delete st i).1, None)
  end.

Fixpoint serve_all (st : MemStorage) (rs : list request)
    : MemStorage * list (PatientAccount * Z) :=
  match rs with
  | [] => (st, [])
  | r :: rs' =>
      let '(st1, c) := serve st r in
      let '(st2, cs) := serve_all st1 rs' in
      (st2, match c with Some x => x :: cs | None => cs end)
  end.

(** Every stored account sits under its own id, below the counter. *)
Definition store_inv (st : MemStorage) : Prop :=
  (1 <= st.(currentAccountId))%Z
  /\ map_Forall (fun k a => a.(id) = k /\ (1 <= k < st.(currentAccountId))%Z) st.(patientAccounts).

(** The body [addNewTab] sends (the client's "+" button). *)
Definition new_tab_body : body :=
  <["patientName" := JStr "New Patient"]> (<["accountNumber" := JStr "ACC-2026-001"]>
  (<["insuranceName" := JStr ""]> (<["sessionId" := JStr "session-1"]> ∅))).

(** The account [addNewTab] creates: an empty insurance name is stored. *)
Definition new_tab_account : PatientAccount :=
  {| id := 1; patientName := "New Patient"; accountNumber := "ACC-2026-001";
     insuranceName := ""; repName := None; callReference := None; denialCode := None;
     denialDescription := None; dateOfService := None; eligibilityFromDate := None;
     eligibilityStatus := None; additionalNotes := None; sessionId := "session-1";
     createdAt := 0; updatedAt := 0 |}.

(** A create body with the three names filled in but no session id. *)
Definition no_session_body : body :=
  <["patientName" := JStr "Jane Doe"]> (<["accountNumber" := JStr "A-1"]>
  (<["insuranceName" := JStr "aetna"]> ∅)).

Definition sample_insert : InsertPatientAccount :=
  {| i_patientName := "Jane Doe"; i_accountNumber := "A-1"; i_insuranceName := "aetna";
     i_repName := Some (Some "Sam"); i_callReference := None; i_denialCode := Some (Some "CO-27");
     i_denialDescription := None; i_dateOfService := None; i_eligibilityFromDate := None;
     i_eligibilityStatus := None; i_additionalNotes := Some None; i_sessionId := "session-1" |}.

Definition sample_update : UpdatePatientAccount :=
  {| u_patientName := None; u_accountNumber := None; u_insuranceName := Some "cigna";
     u_repName := None; u_callReference := Some (Some (Some "R-77")); u_denialCode := None;
     u_denialDescription := None; u_dateOfService := None; u_eligibilityFromDate := None;
     u_eligibilityStatus := Some (Some None); u_additionalNotes := None; u_sessionId := None |}.

End AccountsDefs.

(* ------------------------------------------------------------------ *)
(** ** Further code of [denial-codes.ts], [storage.ts] and the client *)

(** Helpers naming parts of [parseCoordinationOfBenefitsResponse] and the
    shape of cleaned-up notes. *)
Module NotesDefs.
Import JsString Notes.

(** The [insuranceNames] array of [parseCoordinationOfBenefitsResponse],
    computed from [lowerNotes]. *)
Definition insurance_names (lowerNotes : string) : list string :=
  let has := includes lowerNotes in
  ((if has "medicare" || has "mcr" then ["Medicare"] else [])
   ++ (if has "aetna" then ["Aetna"] else [])
   ++ (if has "bcbs" || has "blue cross" then ["Blue Cross Blue Shield"] else [])
   ++ (if has "uhc" || has "united" then ["United Healthcare"] else []))%list.

(** Its [primaryNotBilled] flag. *)
Definition primary_not_billed (lowerNotes : string) : bool :=
  let has := includes lowerNotes in
  has "never billed" || has "not billed" || has "no prim".

(** Whitespace in [s] is only the space character, never two in a row,
    and (when [prevws]) [s] does not start with whitespace. *)
Fixpoint ws_clean (prevws : bool) (s : string) : bool :=
  match s with
  | EmptyString => true
  | String c s' =>
      if is_ws c then Ascii.eqb c " " && negb prevws && ws_clean true s'
      else ws_clean false s'
  end.

(** No whitespace at either end, single spaces inside. *)
Definition ws_normal (s : string) : bool :=
  ws_clean true s && match last_char s with Some c => negb (is_ws c) | None => true end.

End NotesDefs.

(** The user part of [MemStorage] ([getUser], [getUserByUsername],
    [createUser]). *)
Module Users.

(** [typeof users.$inferSelect]. *)
Record User := {
  user_id : Z;
  username : string;
  password : string
}.

(** [InsertUser]: [insertUserSchema] is the table without [id]. *)
Record InsertUser := {
  iu_username : string;
  iu_password : string
}.

(** A JavaScript [Map<number, V>]: its entries in insertion order. *)
Definition JsMap (V : Type) : Type := list (Z * V).

(** [map.get(k)]. *)
Definition jsmap_get {V} (m : JsMap V) (k : Z) : option V :=
  match find (fun p => Z.eqb p.1 k) m with Some p => Some p.2 | None => None end.

(** [map.set(k, v)]: an existing key keeps its place, a new key goes last. *)
Fixpoint jsmap_set {V} (m : JsMap V) (k : Z) (v : V) : JsMap V :=
  match m with
  | [] => [(k, v)]
  | (k', v') :: m' => if Z.eqb k' k then (k, v) :: m' else (k', v') :: jsmap_set m' k v
  end.

(** [Array.from(map.values())]. *)
Definition jsmap_values {V} (m : JsMap V) : list V := map snd m.

Record UserStore := {
  users : JsMap User;
  currentUserId : Z
}.

(** [constructor()]. *)
Definition UserStore_init : UserStore := {| users := []; currentUserId := 1 |}.

Definition getUser (st : UserStore) (i : Z) : option User := jsmap_get st.(users) i.

Definition getUserByUsername (st : UserStore) (name : string) : option User :=
  find (fun user => String.eqb user.(username) name) (jsmap_values st.(users)).

(** [createUser(insertUser)]: [{ ...insertUser, id }] under [currentUserId++]. *)
Definition createUser (st : UserStore) (insertUser : InsertUser) : UserStore * User :=
  let i := st.(currentUserId) in
  let user := {| user_id := i; username := insertUser.(iu_username);
                 password := insertUser.(iu_password) |} in
  ({| users := jsmap_set st.(users) i user; currentUserId := i + 1 |}, user).

End Users.

Module UsersDefs.
Import Users.

(** A run of [createUser] calls; the users they return. *)
Fixpoint createUsers (st : UserStore) (us : list InsertUser) : UserStore * list User :=
  match us with
  | [] => (st, [])
  | u :: us' =>
      let '(st1, user) := createUser st u in
      let '(st2, created) := createUsers st1 us' in
      (st2, user :: created)
  end.

(** The users [us] become when numbered from [i] on. *)
Fixpoint users_from (i : Z) (us : list InsertUser) : list User :=
  match us with
  | [] => []
  | u :: us' =>
      {| user_id := i; username := u.(iu_username); password := u.(iu_password) |}
      :: users_from (i + 1) us'
  end.

End UsersDefs.

(** [getPatientAccountsBySession] and [GET /api/accounts/:sessionId]. *)
Module Sessions.
Import Accounts.

(** [Array.from(this.patientAccounts.values()).filter(account =>
    account.sessionId === sessionId)].  The values are enumerated in the
    gmap's order ([map_to_list]), which stands for the Map's insertion
    order: the properties proved below do not depend on the order. *)
Definition getPatientAccountsBySession (st : MemStorage) (sid : string)
    : list PatientAccount :=
  List.filter (fun account => String.eqb account.(sessionId) sid)
    (map snd (map_to_list st.(patientAccounts))).

(** [GET /api/accounts/:sessionId]: the store is not changed. *)
Definition route_get_session (st : MemStorage) (sid : string)
    : MemStorage * list PatientAccount :=
  (st, getPatientAccountsBySession st sid).

End Sessions.

(** The CSV text of [exportSession] (client, AR copilot page). *)
Module CsvExport.
Import JsString Accounts.

Definition dq : ascii := "034".
Definition nl : ascii := "010".
Definition comma : ascii := ",".
Definition char_str (c : ascii) : string := String c EmptyString.

(** [field.replace(/<quote>/g, <two quotes>)]: every double quote doubled. *)
Fixpoint escape_quotes (s : string) : string :=
  match s with
  | EmptyString => EmptyString
  | String c s' =>
      if Ascii.eqb c dq then String dq (String dq (escape_quotes s'))
      else String c (escape_quotes s')
  end.

(** A field of a data row: quoted when it contains a comma, a quote or a
    newline. *)
Definition csv_cell (field : string) : string :=
  if includes field (char_str comma) || includes field (char_str dq)
     || includes field (char_str nl)
  then String dq (escape_quotes field +:+ char_str dq)
  else field.

(** [row.map(...).join(',')]. *)
Definition csv_line (row : list string) : string := join (char_str comma) (map csv_cell row).

Definition export_headers : list string :=
  ["Patient Name"; "Account Number"; "Insurance Name"; "Rep Name"; "Call Reference";
   "Denial Code"; "Denial Description"; "Date of Service"; "Eligibility From Date";
   "Eligibility Status"; "Additional Notes"; "Created At"; "Updated At"].

(** [account.x || ''] on a nullable column ([null] or absent is falsy). *)
Definition or_empty (x : nullable) : string :=
  match x with Some (Some s) => s | _ => "" end.

(** One row of [csvRows].  [localeString t] is
    [new Date(t).toLocaleString()]; the timestamps of a stored account are
    always set, so the [? :] takes its first branch.  The page's own
    [getInsuranceLabel] has the body of the one in denial-codes.ts. *)
Definition export_row (localeString : Z -> string) (account : PatientAccount) : list string :=
  [Comment.js_or (Some account.(patientName)) "";
   Comment.js_or (Some account.(accountNumber)) "";
   Comment.js_or (Comment.getInsuranceLabel (Some account.(insuranceName)))
     (Comment.js_or (Some account.(insuranceName)) "");
   or_empty account.(repName);
   or_empty account.(callReference);
   or_empty account.(denialCode);
   or_empty account.(denialDescription);
   or_empty account.(dateOfService);
   or_empty account.(eligibilityFromDate);
   or_empty account.(eligibilityStatus);
   or_empty account.(additionalNotes);
   localeString account.(createdAt);
   localeString account.(updatedAt)].

(** The decimal text of a number ([`${n}`]). *)
Fixpoint digits_go (fuel n : nat) (acc : string) : string :=
  match fuel with
  | 0 => acc
  | S fuel' =>
      let acc' := String (ascii_of_nat (48 + n mod 10)) acc in
      if Nat.ltb n 10 then acc' else digits_go fuel' (n / 10) acc'
  end.

Definition string_of_nat (n : nat) : string := digits_go (S n) n "".

(** [csvContent]: four comment lines, an empty line, the header line and
    one line per account, joined by newlines.  [exportDate] is
    [new Date().toLocaleString()]. *)
Definition csvContent (localeString : Z -> string) (sid exportDate : string)
    (accounts : list PatientAccount) : string :=
  join (char_str nl)
    (["# AR Copilot Session Export"; "# Session ID: " +:+ sid;
      "# Export Date: " +:+ exportDate;
      "# Total Accounts: " +:+ string_of_nat (length accounts); "";
      join (char_str comma) export_headers]
     ++ map csv_line (map (export_row localeString) accounts))%list.

End CsvExport.

(** A reader of CSV text in the RFC 4180 style (records separated by a
    line feed, fields by commas, a field in double quotes may contain
    commas, line feeds and doubled quotes), to read the export back. *)
Module CsvReader.
Import CsvExport.

Inductive csv_mode := FieldStart | Unquoted | InQuotes | QuoteInQuotes.

Definition finish_field (field : list ascii) : string := string_of_list_ascii (List.rev field).

(** [field] holds the characters of the current field, last first; [row]
    the finished fields of the current record, last first. *)
Fixpoint csv_read (m : csv_mode) (s : string) (field : list ascii) (row : list string)
    : list (list string) :=
  match s with
  | EmptyString => [List.rev (finish_field field :: row)]
  | String c s' =>
      match m with
      | FieldStart =>
          if Ascii.eqb c dq then csv_read InQuotes s' field row
          else if Ascii.eqb c comma then csv_read FieldStart s' [] (finish_field field :: row)
          else if Ascii.eqb c nl then
            List.rev (finish_field field :: row) :: csv_read FieldStart s' [] []
          else csv_read Unquoted s' (c :: field) row
      | Unquoted =>
          if Ascii.eqb c comma then csv_read FieldStart s' [] (finish_field field :: row)
          else if Ascii.eqb c nl then
            List.rev (finish_field field :: row) :: csv_read FieldStart s' [] []
          else csv_read Unquoted s' (c :: field) row
      | InQuotes =>
          if Ascii.eqb c dq then csv_read QuoteInQuotes s' field row
          else csv_read InQuotes s' (c :: field) row
      | QuoteInQuotes =>
          if Ascii.eqb c dq then csv_read InQuotes s' (dq :: field) row
          else if Ascii.eqb c comma then csv_read FieldStart s' [] (finish_field field :: row)
          else if Ascii.eqb c nl then
            List.rev (finish_field field :: row) :: csv_read FieldStart s' [] []
          else csv_read Unquoted s' (c :: field) row
      end
  end.

Definition parse_csv (s : string) : list (list string) := csv_read FieldStart s [] [].

End CsvReader.

(** Vocabulary for the further account properties. *)
Module AccountsMoreDefs.
Import Accounts AccountsDefs.

(** The columns the two schemas read. *)
Definition account_columns : list string :=
  ["patientName"; "accountNumber"; "insuranceName"; "sessionId"] ++ nullable_keys.

(** A column of [updatePatientAccountSchema] that is [z.string().optional()]:
    absent, or a string. *)
Definition optional_string (v : option json) : Prop :=
  v = None \/ exists s, v = Some (JStr s).

(** The PATCH-body condition. *)
Definition update_body_ok (b : body) : Prop :=
  optional_string (b !! "patientName") /\ optional_string (b !! "accountNumber")
  /\ optional_string (b !! "insuranceName") /\ optional_string (b !! "sessionId")
  /\ Forall (fun k => b !! k <> Some JOther) nullable_keys.

(** [e] with only [updatedAt] changed. *)
Definition touched (e : PatientAccount) (now : Z) : PatientAccount :=
  {| id := e.(id); patientName := e.(patientName); accountNumber := e.(accountNumber);
     insuranceName := e.(insuranceName); repName := e.(repName);
     callReference := e.(callReference); denialCode := e.(denialCode);
     denialDescription := e.(denialDescription); dateOfService := e.(dateOfService);
     eligibilityFromDate := e.(eligibilityFromDate);
     eligibilityStatus := e.(eligibilityStatus); additionalNotes := e.(additionalNotes);
     sessionId := e.(sessionId); createdAt := e.(createdAt); updatedAt := now |}.

End AccountsMoreDefs.

(** The active tab after [closeTab(accountId)] on the AR copilot page. *)
Module Tabs.
Import Accounts.

(** [if (activeTabId === accountId)]: the first of the other accounts
    becomes active, or none; otherwise the active tab is kept. *)
Definition closeTab_active (accounts : list PatientAccount) (activeTabId : option Z)
    (accountId : Z) : option Z :=
  match activeTabId with
  | Some a =>
      if Z.eqb a accountId then
        match List.filter (fun acc => negb (Z.eqb acc.(id) accountId)) accounts with
        | acc :: _ => Some acc.(id)
        | [] => None
        end
      else activeTabId
  | None => None
  end.

End Tabs.

(* ================================================================== *)
(** * Properties *)

(* ------------------------------------------------------------------ *)
(** ** The denial-code table *)

Module TableFacts.
Import DenialCodes TableDefs.









End TableFacts.

(* ------------------------------------------------------------------ *)
(** ** String lemmas *)

Module StrFacts.
Import JsString.

(** [String.append] is [simpl never] under stdpp: its two equations. *)
Lemma append_empty (b : string) : "" +:+ b = b.
Proof. reflexivity. Qed.

Lemma append_cons (x : ascii) (a b : string) : String x a +:+ b = String x (a +:+ b).
Proof. reflexivity. Qed.

Lemma append_assoc_str (a b c : string) : (a +:+ b) +:+ c = a +:+ (b +:+ c).
Proof.
  induction a as [|x a IH]; [reflexivity|].
  rewrite !append_cons, IH. reflexivity.
Qed.

Lemma append_nil_r (s : string) : s +:+ "" = s.
Proof.
  induction s as [|x s IH]; [reflexivity|].
  rewrite append_cons, IH. reflexivity.
Qed.

Lemma prefix_append (p r : string) : String.prefix p (p +:+ r) = true.
Proof.
  induction p as [|x p IH]; [now destruct r|].
  rewrite append_cons. simpl.
  destruct (ascii_dec x x); [exact IH | contradiction].
Qed.

Lemma includes_prefix (p r : string) : includes (p +:+ r) p = true.
Proof.
  destruct p as [|x p]; [now destruct r|].
  rewrite append_cons. simpl.
  destruct (ascii_dec x x) as [_|]; [|contradiction].
  rewrite (prefix_append p r). reflexivity.
Qed.

Lemma includes_app_l (x s p : string) : includes s p = true -> includes (x +:+ s) p = true.
Proof.
  intros H. induction x as [|c x IH]; [exact H|].
  rewrite append_cons. simpl. rewrite IH. apply orb_true_r.
Qed.

Lemma includes_app3 (a b c r : string) : includes (a +:+ b +:+ c +:+ r) (a +:+ b +:+ c) = true.
Proof.
  rewrite <- (append_assoc_str b c r), <- (append_assoc_str a (b +:+ c) r).
  apply includes_prefix.
Qed.

Lemma includes_lit2 (a b r p : string) :
  a +:+ b = p -> includes (a +:+ b +:+ r) p = true.
Proof. intros <-. rewrite <- (append_assoc_str a b r). apply includes_prefix. Qed.

Lemma includes_lit3 (a b c r p : string) :
  a +:+ b +:+ c = p -> includes (a +:+ b +:+ c +:+ r) p = true.
Proof. intros <-. apply includes_app3. Qed.

Lemma includes_lit5 (a b c d e r p : string) :
  a +:+ b +:+ c +:+ d +:+ e = p -> includes (a +:+ b +:+ c +:+ d +:+ e +:+ r) p = true.
Proof.
  intros <-.
  rewrite <- (append_assoc_str d e r), <- (append_assoc_str c _ r),
    <- (append_assoc_str b _ r), <- (append_assoc_str a _ r).
  apply includes_prefix.
Qed.

Lemma append_not_empty (s c : string) : c <> "" -> s +:+ c <> "".
Proof. destruct s; [tauto | rewrite append_cons; discriminate]. Qed.

End StrFacts.

(* ------------------------------------------------------------------ *)
(** ** Notes clean-up and the coordination-of-benefits parser *)

Module NotesFacts.
Import JsString Notes Comment NotesDefs StrFacts.

Definition last_ok (s : string) : Prop :=
  match last_char s with Some c => is_ws c = false | None => True end.

Lemma is_ws_true (c : ascii) :
  is_ws c = true ->
  (9 <= nat_of_ascii c <= 13 \/ nat_of_ascii c = 32 \/ nat_of_ascii c = 160)%nat.
Proof.
  unfold is_ws. intros H.
  apply orb_true_iff in H as [H|H]; [apply orb_true_iff in H as [H|H]|].
  - apply andb_true_iff in H as [H1 H2].
    apply Nat.leb_le in H1, H2. lia.
  - apply Nat.eqb_eq in H. lia.
  - apply Nat.eqb_eq in H. lia.
Qed.

Lemma to_upper_not_ws (c : ascii) : is_ws c = false -> is_ws (to_upper_char c) = false.
Proof.
  intros Hc. unfold to_upper_char.
  destruct (Nat.leb 97 (nat_of_ascii c) && Nat.leb (nat_of_ascii c) 122) eqn:E; [|exact Hc].
  apply andb_true_iff in E as [E1 E2]. apply Nat.leb_le in E1, E2.
  destruct (is_ws (ascii_of_nat (nat_of_ascii c - 32))) eqn:W; [|reflexivity].
  apply is_ws_true in W. rewrite nat_ascii_embedding in W by lia. lia.
Qed.

Lemma count_while_head (f : ascii -> bool) (s : string) :
  match sdrop (count_while f s) s with String c _ => f c = false | EmptyString => True end.
Proof.
  induction s as [|c s IH]; [exact I|].
  simpl. destruct (f c) eqn:E; [exact IH|exact E].
Qed.

Lemma sdrop_length (n : nat) (s : string) : String.length (sdrop n s) <= String.length s.
Proof.
  revert s. induction n as [|n IH]; intros [|c s]; simpl; try lia.
  specialize (IH s). lia.
Qed.

(** [replace(/\s+/g, ' ')] leaves single spaces as the only whitespace. *)
Lemma gsub_ws_clean (fuel : nat) (s : string) (prev : option ascii) (b : bool) :
  String.length s <= fuel ->
  (b = true -> match s with String c _ => is_ws c = false | EmptyString => True end) ->
  ws_clean b (gsub_go fuel [TWs1] (fun _ => " ") prev s) = true.
Proof.
  revert s prev b. induction fuel as [|fuel IH]; intros s prev b Hlen Hb.
  - destruct s; [reflexivity|simpl in Hlen; lia].
  - destruct s as [|c s']; [reflexivity|].
    simpl in Hlen. simpl.
    destruct (is_ws c) eqn:Hc.
    + destruct b; [specialize (Hb eq_refl); simpl in Hb; congruence|].
      simpl. rewrite Nat.add_0_r.
      apply IH.
      * pose proof (sdrop_length (count_while is_ws s') s'). lia.
      * intros _. apply count_while_head.
    + simpl. rewrite Hc. apply IH; [lia|discriminate].
Qed.

Lemma trimStart_noop (x : string) : ws_clean true x = true -> trimStart x = x.
Proof.
  destruct x as [|c x]; [reflexivity|]. simpl.
  destruct (is_ws c); [rewrite andb_false_r; simpl; discriminate|reflexivity].
Qed.

Lemma trimStart_clean (x : string) : ws_clean false x = true -> ws_clean true (trimStart x) = true.
Proof.
  destruct x as [|c x]; [reflexivity|]. simpl.
  destruct (is_ws c) eqn:Hc.
  - intros H. apply andb_true_iff in H as [_ H].
    rewrite (trimStart_noop x H). exact H.
  - simpl. rewrite Hc. exact (fun H => H).
Qed.

Lemma ws_clean_prefix (y z : string) (b : bool) :
  ws_clean b (y +:+ z) = true -> ws_clean b y = true.
Proof.
  revert b. induction y as [|c y IH]; intros b; [reflexivity|].
  rewrite append_cons. simpl. destruct (is_ws c).
  - intros H. apply andb_true_iff in H as [H1 H2]. rewrite H1. simpl. exact (IH _ H2).
  - apply IH.
Qed.

Lemma last_char_cons (c : ascii) (y : string) :
  y <> "" -> last_char (String c y) = last_char y.
Proof. destruct y; [congruence|reflexivity]. Qed.

(** A clean text is a text without trailing whitespace, plus at most one
    space. *)
Lemma ws_clean_split (x : string) (b : bool) :
  ws_clean b x = true -> exists y, (x = y \/ x = y +:+ " ") /\ last_ok y.
Proof.
  revert b. induction x as [|c x IH]; intros b H.
  - exists "". split; [left; reflexivity|exact I].
  - simpl in H. destruct (is_ws c) eqn:Hc.
    + apply andb_true_iff in H as [H H2]. apply andb_true_iff in H as [H1 _].
      apply Ascii.eqb_eq in H1. subst c.
      destruct x as [|d x'].
      * exists "". split; [right; reflexivity|exact I].
      * destruct (IH true H2) as [y [Hy Hl]].
        assert (Hd : is_ws d = false).
        { simpl in H2. destruct (is_ws d); [rewrite andb_false_r in H2; discriminate|reflexivity]. }
        assert (Hyne : y <> "").
        { intros ->. destruct Hy as [Hy|Hy]; [discriminate|].
          rewrite append_empty in Hy. injection Hy as -> _. discriminate. }
        exists (String " " y). split.
        -- destruct Hy as [->| ->]; [left; reflexivity|right; reflexivity].
        -- unfold last_ok. rewrite last_char_cons by exact Hyne. exact Hl.
    + destruct (IH false H) as [y [Hy Hl]].
      exists (String c y). split.
      * destruct Hy as [->| ->]; [left; reflexivity|right; reflexivity].
      * unfold last_ok. destruct y as [|d y'].
        -- simpl. exact Hc.
        -- rewrite last_char_cons by discriminate. exact Hl.
Qed.

Lemma rev_str_app (a b : string) : rev_str (a +:+ b) = rev_str b +:+ rev_str a.
Proof.
  induction a as [|c a IH].
  - rewrite append_empty, append_nil_r. reflexivity.
  - rewrite append_cons. simpl. rewrite IH, append_assoc_str. reflexivity.
Qed.

Lemma rev_str_involutive (y : string) : rev_str (rev_str y) = y.
Proof.
  induction y as [|c y IH]; [reflexivity|].
  simpl. rewrite rev_str_app, IH. reflexivity.
Qed.

Lemma rev_str_head (y : string) :
  match last_char y with
  | None => rev_str y = ""
  | Some c => exists r, rev_str y = String c r
  end.
Proof.
  induction y as [|c y IH]; [reflexivity|].
  destruct y as [|d y'].
  - exists "". reflexivity.
  - rewrite last_char_cons by discriminate.
    destruct (last_char (String d y')) as [e|] eqn:E.
    + destruct IH as [r Hr]. exists (r +:+ String c "").
      change (rev_str (String c (String d y'))) with (rev_str (String d y') +:+ String c "").
      rewrite Hr, append_cons. reflexivity.
    + exfalso. clear -E. revert d E.
      induction y' as [|e y' IHy]; intros d E; [discriminate|exact (IHy e E)].
Qed.

Lemma trimStart_rev (y : string) : last_ok y -> trimStart (rev_str y) = rev_str y.
Proof.
  unfold last_ok. pose proof (rev_str_head y) as H.
  destruct (last_char y) as [c|].
  - destruct H as [r ->]. intros Hc. simpl. rewrite Hc. reflexivity.
  - rewrite H. reflexivity.
Qed.

Lemma trim_clean (x : string) :
  ws_clean false x = true -> ws_clean true (trim x) = true /\ last_ok (trim x).
Proof.
  intros H. unfold trim.
  pose proof (trimStart_clean x H) as H1.
  destruct (ws_clean_split _ _ H1) as [y [Hy Hl]].
  destruct Hy as [Hy|Hy]; rewrite Hy in *.
  - rewrite trimStart_rev, rev_str_involutive by exact Hl. split; assumption.
  - rewrite rev_str_app.
    change (rev_str " ") with " ". rewrite append_cons, append_empty.
    simpl. rewrite trimStart_rev, rev_str_involutive by exact Hl.
    split; [exact (ws_clean_prefix _ _ _ H1)|exact Hl].
Qed.

Lemma capitalize_clean (y : string) :
  ws_clean true y = true -> last_ok y ->
  ws_clean true (capitalize y) = true /\ last_ok (capitalize y).
Proof.
  destruct y as [|c y]; [tauto|].
  simpl. destruct (is_ws c) eqn:Hc; [rewrite andb_false_r; discriminate|].
  intros H Hl. rewrite (to_upper_not_ws c Hc). split; [exact H|].
  unfold last_ok in *. destruct y as [|d y'].
  - simpl. apply to_upper_not_ws. exact Hc.
  - rewrite last_char_cons in * by discriminate. exact Hl.
Qed.

Lemma ws_clean_snoc (y : string) (c : ascii) (b : bool) :
  is_ws c = false -> ws_clean b y = true -> ws_clean b (y +:+ String c "") = true.
Proof.
  intros Hc. revert b. induction y as [|d y IH]; intros b H.
  - simpl. rewrite Hc. reflexivity.
  - rewrite append_cons. simpl in *. destruct (is_ws d).
    + apply andb_true_iff in H as [H1 H2]. rewrite H1. simpl. exact (IH _ H2).
    + exact (IH _ H).
Qed.

Lemma last_char_snoc (y : string) (c : ascii) : last_char (y +:+ String c "") = Some c.
Proof.
  induction y as [|d y IH]; [reflexivity|].
  rewrite append_cons. rewrite last_char_cons; [exact IH|].
  destruct y; discriminate.
Qed.

(** The [insuranceNames] of the source, for the [[]] case. *)
Lemma parseCOB_no_names (notes : string) :
  insurance_names (toLowerCase notes) = [] ->
  parseCoordinationOfBenefitsResponse notes = improveAdditionalNotes notes.
Proof.
  unfold parseCoordinationOfBenefitsResponse, insurance_names. cbv zeta.
  generalize (toLowerCase notes) as L. intros L H.
  destruct (includes L "medicare"), (includes L "mcr"), (includes L "aetna"),
    (includes L "bcbs" || includes L "blue cross"), (includes L "uhc" || includes L "united");
    simpl in H; try discriminate H; reflexivity.
Qed.

(** X1: notes that are blank after trimming give the empty text; any other
    notes give a text that ends in ".", "!" or "?", has no whitespace at
    either end, and whose only whitespace is single spaces. *)
Theorem improveAdditionalNotes_shape (notes : string) :
  (is_blank notes = true -> improveAdditionalNotes notes = "")
  /\ (is_blank notes = false ->
        ends_with_punct (improveAdditionalNotes notes) = true
        /\ ws_normal (improveAdditionalNotes notes) = true).
Proof.
  split; intros Hb; unfold improveAdditionalNotes; rewrite Hb; [reflexivity|].
  unfold fix_patterns, gsub. cbv zeta.
  match goal with |- context [trim (gsub_go ?f [TWs1] ?r None ?s)] =>
    pose proof (gsub_ws_clean f s None false (le_n _) (fun H => False_ind _ (diff_false_true H)))
      as Hg;
    destruct (trim_clean _ Hg) as [Ht Hl];
    destruct (capitalize_clean _ Ht Hl) as [Hc Hcl];
    generalize dependent (capitalize (trim (gsub_go f [TWs1] r None s)))
  end.
  intros z Hz Hzl.
  destruct (ends_with_punct z) eqn:E.
  - split; [exact E|]. unfold ws_normal. rewrite Hz. simpl.
    unfold last_ok in Hzl. destruct (last_char z); [rewrite Hzl|]; reflexivity.
  - unfold ends_with_punct, ws_normal. rewrite last_char_snoc.
    rewrite (ws_clean_snoc z "." true eq_refl Hz). split; reflexivity.
Qed.

(** X2: [parseCoordinationOfBenefitsResponse] names the insurers it finds
    in the fixed order Medicare ("medicare" or "mcr"), Aetna, Blue Cross
    Blue Shield ("bcbs" or "blue cross"), United Healthcare ("uhc" or
    "united"); the first one found is always reported as primary, whatever
    the notes say about "primary" or "1st", and the second one, if any, as
    secondary; with no insurer found it falls back to
    [improveAdditionalNotes]. *)
Theorem parseCOB_primary_first (notes : string) :
  parseCoordinationOfBenefitsResponse notes =
  match insurance_names (toLowerCase notes) with
  | [] => improveAdditionalNotes notes
  | p :: rest =>
      "Patient has " +:+ join " and " (p :: rest) +:+ ". " +:+ p +:+ " should be primary"
      +:+ (if primary_not_billed (toLowerCase notes)
           then ", but it was not billed first. " else ". ")
      +:+ match rest with
          | [] => ""
          | s :: _ => "COB order is " +:+ p +:+ " primary, then " +:+ s +:+ " secondary."
          end
  end.
Proof.
  unfold parseCoordinationOfBenefitsResponse, insurance_names, primary_not_billed. cbv zeta.
  generalize (toLowerCase notes) as L. intros L.
  destruct (includes L "medicare"), (includes L "mcr"), (includes L "aetna"),
    (includes L "bcbs" || includes L "blue cross"), (includes L "uhc" || includes L "united"),
    (includes L "primary" || includes L "1st"),
    (includes L "never billed" || includes L "not billed" || includes L "no prim");
    reflexivity.
Qed.

Lemma parseQA_improve_when (notes : string) (code : option string) :
  code <> Some "CO-22" \/ insurance_names (toLowerCase notes) = [] ->
  parseQAResponse (Some notes) code = improveAdditionalNotes notes.
Proof.
  intros H. unfold parseQAResponse.
  destruct (is_blank notes) eqn:Hb.
  - unfold improveAdditionalNotes. rewrite Hb. reflexivity.
  - destruct (existsb (fun p => qa_test p notes) qaPatterns); simpl; [|reflexivity].
    case_bool_decide as Hc; [|reflexivity].
    destruct H as [H|H]; [contradiction|].
    exact (parseCOB_no_names notes H).
Qed.

(** X3: [parseQAResponse] on notes is [improveAdditionalNotes] of the notes
    unless the denial code is CO-22 and the notes name one of the insurers
    the coordination-of-benefits parser looks for. *)
Theorem parseQAResponse_improve (notes : string) (code : option string)
    (H : code <> Some "CO-22" \/ insurance_names (toLowerCase notes) = []) :
  parseQAResponse (Some notes) code = improveAdditionalNotes notes.
Proof. exact (parseQA_improve_when notes code H). Qed.

Lemma parseQAResponse_improve_witness :
  parseQAResponse (Some "medicare primary") (Some "CO-4")
  = improveAdditionalNotes "medicare primary".
Proof.
  apply (parseQAResponse_improve "medicare primary" (Some "CO-4")).
  left. discriminate.
Defined.

End NotesFacts.

(* ------------------------------------------------------------------ *)
(** ** [generateRCMComment] *)

Module CommentFacts.
Import JsString Notes Comment CommentDefs StrFacts.

Ltac unfold_comment :=
  unfold generateRCMComment; cbv zeta.

(** C3: a missing, empty or unrecognised denial code selects the generic
    sentence "Denial documented per rep guidance"; each of the 23
    recognised codes selects a sentence of its own, which is a constant for
    every code except CO-27, whose sentence interpolates the eligibility
    fields; the selected sentence is what follows the code in the comment. *)
Theorem generateRCMComment_switch (fd : FormData) :
  (match fd.(denialCode) with Some c => c ∉ recognized_codes | None => True end ->
   specificComment fd = fallback_comment)
  /\ (forall c, fd.(denialCode) = Some c -> c ∈ recognized_codes ->
        specificComment fd <> fallback_comment
        /\ (c <> "CO-27" -> forall fd', fd'.(denialCode) = Some c ->
              specificComment fd' = specificComment fd))
  /\ includes (generateRCMComment fd) (": " +:+ specificComment fd +:+ ".") = true.
Proof.
  split; [|split].
  - unfold specificComment. destruct fd.(denialCode) as [c|] eqn:Hc; intros Hn;
      [|reflexivity].
    repeat match goal with
    | |- context [is_code ?x (Some c)] =>
        let E := fresh "E" in
        destruct (is_code x (Some c)) eqn:E;
        [ apply bool_decide_eq_true in E; injection E as E; subst c;
          exfalso; apply Hn; cbv [recognized_codes]; repeat constructor | ]
    end.
    reflexivity.
  - intros c Hc Hin.
    repeat (apply elem_of_cons in Hin as [->|Hin]);
      [.. | apply elem_of_nil in Hin; contradiction];
      (split;
       [ intros E; unfold specificComment in E; rewrite Hc in E;
         vm_compute in E; discriminate E
       | intros Hne fd' Hc'; unfold specificComment; rewrite Hc, Hc';
         first [ exfalso; apply Hne; reflexivity | vm_compute; reflexivity ] ]).
  - unfold_comment.
    do 6 apply includes_app_l.
    apply includes_app3.
Qed.

Lemma ends_with_app (x s p : string) : ends_with s p -> ends_with (x +:+ s) p.
Proof. intros [y ->]. exists (x +:+ y). symmetry. apply append_assoc_str. Qed.

Lemma js_or_missing (x : option string) (d : string) : missing x = true -> js_or x d = d.
Proof.
  destruct x as [s|]; simpl; [|reflexivity].
  intros H. apply String.eqb_eq in H. subst s. reflexivity.
Qed.

Lemma insurance_missing (x : option string) (d : string) :
  missing x = true -> js_or (getInsuranceLabel x) d = d.
Proof.
  destruct x as [s|]; simpl; [|reflexivity].
  intros H. apply String.eqb_eq in H. subst s. reflexivity.
Qed.

Lemma specificComment_CO27 (fd : FormData) :
  fd.(denialCode) = Some "CO-27" ->
  specificComment fd =
    "Eligibility " +:+ js_or fd.(eligibilityStatus) "inactive" +:+ " as of "
    +:+ js_or fd.(eligibilityFromDate) "[Date]"
    +:+ ". Coverage terminated prior to DOS. Patient responsibility confirmed".
Proof. intros H. unfold specificComment. rewrite H. reflexivity. Qed.

(** C4 (as corrected): a missing or empty rep name, insurance, denial code or
    call reference is shown as "[Rep Name]", "[Insurance]", "[Code]" or
    "[Reference]"; under CO-27 a missing eligibility date is shown as
    "[Date]", while a missing eligibility status is shown as the word
    "inactive". *)
Theorem generateRCMComment_placeholders (fd : FormData) :
  (missing fd.(repName) = true ->
     exists r, generateRCMComment fd = "Spoke with [Rep Name] from " +:+ r)
  /\ (missing fd.(insuranceName) = true ->
        includes (generateRCMComment fd) " from [Insurance] - " = true)
  /\ (missing fd.(denialCode) = true ->
        includes (generateRCMComment fd) " - [Code]: " = true)
  /\ (missing fd.(callReference) = true ->
        ends_with (generateRCMComment fd) " Call ref #[Reference]")
  /\ (fd.(denialCode) = Some "CO-27" -> missing fd.(eligibilityFromDate) = true ->
        includes (generateRCMComment fd) " as of [Date]" = true)
  /\ (fd.(denialCode) = Some "CO-27" -> missing fd.(eligibilityStatus) = true ->
        includes (generateRCMComment fd) "CO-27: Eligibility inactive as of " = true).
Proof.
  repeat split.
  - intros H. unfold_comment. rewrite (js_or_missing _ _ H).
    eexists. reflexivity.
  - intros H. unfold_comment. rewrite (insurance_missing _ _ H).
    do 2 apply includes_app_l. apply includes_lit3. reflexivity.
  - intros H. unfold_comment. rewrite (js_or_missing _ _ H).
    do 4 apply includes_app_l. apply includes_lit3. reflexivity.
  - intros H. unfold_comment. rewrite (js_or_missing _ _ H).
    do 10 apply ends_with_app. exists "". reflexivity.
  - intros Hc H. unfold_comment. rewrite (specificComment_CO27 _ Hc), (js_or_missing _ _ H).
    do 7 apply includes_app_l. rewrite !append_assoc_str.
    do 2 apply includes_app_l. apply includes_lit2. reflexivity.
  - intros Hc H. unfold_comment.
    rewrite (specificComment_CO27 _ Hc), (js_or_missing _ _ H), Hc.
    do 5 apply includes_app_l. rewrite !append_assoc_str.
    apply includes_lit5. reflexivity.
Qed.

(** C4, as the spec states it, fails: under CO-27 a missing eligibility
    status is rendered as the word "inactive", not as a bracketed
    placeholder. *)
Lemma generateRCMComment_status_not_bracketed :
  generateRCMComment (form_with (Some "CO-27") None)
    = "Spoke with [Rep Name] from [Insurance] - CO-27: Eligibility inactive as of [Date]. Coverage terminated prior to DOS. Patient responsibility confirmed. Call ref #[Reference]"
  /\ includes (generateRCMComment (form_with (Some "CO-27") None)) "Eligibility [" = false.
Proof. split; vm_compute; reflexivity. Qed.

Lemma improve_nonempty (n : string) : is_blank n = false -> improveAdditionalNotes n <> "".
Proof.
  intros H. unfold improveAdditionalNotes. rewrite H. cbv beta iota zeta.
  generalize (capitalize (fix_patterns (fold_left apply_improvement improvements
                                          (trim (toLowerCase n))))).
  intros x. destruct (ends_with_punct x) eqn:E.
  - intros ->. discriminate E.
  - apply append_not_empty. discriminate.
Qed.

Lemma parseQA_nonempty (n : string) (c : option string) :
  is_blank n = false -> parseQAResponse (Some n) c <> "".
Proof.
  intros H. unfold parseQAResponse. rewrite H. cbv beta iota zeta.
  match goal with |- context [if ?b then _ else _] => destruct b end.
  - unfold parseCoordinationOfBenefitsResponse. cbv beta zeta.
    match goal with
    | |- (if String.eqb ?r "" then _ else _) <> "" => destruct (String.eqb_spec r "")
    end; [apply improve_nonempty, H | assumption].
  - apply improve_nonempty, H.
Qed.

Lemma parseQA_blank (n : option string) (c : option string) :
  notes_blank n = true -> parseQAResponse n c = "".
Proof.
  destruct n as [s|]; [|reflexivity]. simpl. intros H.
  unfold parseQAResponse, is_blank. rewrite H. reflexivity.
Qed.

Lemma specificComment_with_notes (fd : FormData) (n : option string) :
  specificComment (with_notes fd n) = specificComment fd.
Proof. reflexivity. Qed.

(** C10: every comment starts with "Spoke with " and ends with
    "Call ref #" and the call reference (or "[Reference]").  Between them,
    the comment of a form differs from that of the same form without notes
    exactly by a segment: that segment is empty when the notes are missing
    or blank after trimming, and otherwise is " Additional notes: " followed
    by a non-empty text. *)
Theorem generateRCMComment_frame (fd : FormData) :
  exists head seg,
    generateRCMComment fd
      = "Spoke with " +:+ head +:+ seg +:+ " Call ref #" +:+ js_or fd.(callReference) "[Reference]"
    /\ generateRCMComment (with_notes fd None)
      = "Spoke with " +:+ head +:+ " Call ref #" +:+ js_or fd.(callReference) "[Reference]"
    /\ (notes_blank fd.(additionalNotes) = true -> seg = "")
    /\ (notes_blank fd.(additionalNotes) = false ->
          exists s, s <> "" /\ seg = " Additional notes: " +:+ s).
Proof.
  exists (js_or fd.(repName) "[Rep Name]" +:+ " from "
          +:+ js_or (getInsuranceLabel fd.(insuranceName)) "[Insurance]" +:+ " - "
          +:+ js_or fd.(denialCode) "[Code]" +:+ ": " +:+ specificComment fd +:+ ".").
  exists (if String.eqb (parseQAResponse fd.(additionalNotes) fd.(denialCode)) "" then ""
          else " Additional notes: " +:+ parseQAResponse fd.(additionalNotes) fd.(denialCode)).
  repeat split.
  - unfold_comment. rewrite !append_assoc_str. reflexivity.
  - unfold_comment. rewrite specificComment_with_notes.
    change (parseQAResponse (additionalNotes (with_notes fd None))
              (denialCode (with_notes fd None))) with "".
    change (String.eqb "" "") with true. cbv beta iota.
    rewrite append_empty, !append_assoc_str. reflexivity.
  - intros H. rewrite (parseQA_blank _ _ H). reflexivity.
  - destruct fd.(additionalNotes) as [n|] eqn:En; [|discriminate].
    intros H. pose proof (parseQA_nonempty n fd.(denialCode) H) as Hne.
    destruct (String.eqb_spec (parseQAResponse (Some n) fd.(denialCode)) "");
      [contradiction|].
    eexists; split; [exact Hne | reflexivity].
Qed.

(** C1, as the spec states it, fails: the notes are rewritten before they
    are inserted ("pt" becomes "Patient."), and whitespace-only notes (a
    tab) are dropped, so the notes do not occur verbatim in the comment. *)
Lemma generateRCMComment_notes_not_verbatim :
  generateRCMComment (form_with (Some "CO-4") (Some "pt"))
    = "Spoke with [Rep Name] from [Insurance] - CO-4: Modifier issue identified. Procedure code requires correct modifier for reimbursement. Additional notes: Patient. Call ref #[Reference]"
  /\ includes (generateRCMComment (form_with (Some "CO-4") (Some "pt"))) "pt" = false
  /\ includes (generateRCMComment (form_with (Some "CO-4") (Some (String (ascii_of_nat 9) ""))))
       (String (ascii_of_nat 9) "") = false.
Proof. repeat split; vm_compute; reflexivity. Qed.

(** C1 (as corrected): for notes [Y] that are not blank after trimming, the
    comment contains " Additional notes: " followed by [parseQAResponse(Y,
    code)] (never empty) right before " Call ref #"; that text is
    [improveAdditionalNotes(Y)] unless the code is CO-22 and [Y] names an
    insurer the coordination-of-benefits parser recognises; blank notes
    leave the comment as if there were no notes. *)
Theorem generateRCMComment_notes (fd : FormData) (Y : string)
    (HY : fd.(additionalNotes) = Some Y) :
  (trim Y <> "" ->
     parseQAResponse (Some Y) fd.(denialCode) <> ""
     /\ includes (generateRCMComment fd)
          (" Additional notes: " +:+ parseQAResponse (Some Y) fd.(denialCode) +:+ " Call ref #")
        = true
     /\ (fd.(denialCode) <> Some "CO-22"
         \/ NotesDefs.insurance_names (toLowerCase Y) = [] ->
         parseQAResponse (Some Y) fd.(denialCode) = improveAdditionalNotes Y))
  /\ (trim Y = "" -> generateRCMComment fd = generateRCMComment (with_notes fd None)).
Proof.
  split.
  - intros Hne. assert (Hb : is_blank Y = false) by (apply String.eqb_neq; exact Hne).
    pose proof (parseQA_nonempty Y fd.(denialCode) Hb) as Hp.
    split; [exact Hp|].
    split; [|exact (NotesFacts.parseQA_improve_when Y fd.(denialCode))].
    unfold_comment. rewrite HY.
    destruct (String.eqb_spec (parseQAResponse (Some Y) fd.(denialCode)) "");
      [contradiction|].
    do 9 apply includes_app_l. rewrite append_assoc_str.
    apply includes_lit3. reflexivity.
  - intros Hb. assert (Hn : notes_blank (Some Y) = true) by (apply String.eqb_eq; exact Hb).
    unfold_comment. rewrite HY, (parseQA_blank _ _ Hn), specificComment_with_notes.
    change (parseQAResponse (additionalNotes (with_notes fd None))
              (denialCode (with_notes fd None))) with "".
    reflexivity.
Qed.

(** C2: [generateRCMComment] returns a string for every form, and equal
    forms, indeed forms that agree on the seven fields it reads, give equal
    comments. *)
Theorem generateRCMComment_pure_total (fd fd' : FormData) :
  (exists s, generateRCMComment fd = s)
  /\ (reads_same fd fd' -> generateRCMComment fd = generateRCMComment fd').
Proof.
  split; [eexists; reflexivity|].
  destruct fd, fd'. intros (H1 & H2 & H3 & H4 & H5 & H6 & H7).
  simpl in H1, H2, H3, H4, H5, H6, H7. subst. reflexivity.
Qed.

(** An instance of C1 (as corrected): the note "pt" on a CO-4 denial. *)
Lemma generateRCMComment_notes_witness :
  trim "pt" <> ""
  /\ includes (generateRCMComment (form_with (Some "CO-4") (Some "pt")))
       (" Additional notes: " +:+ parseQAResponse (Some "pt") (Some "CO-4") +:+ " Call ref #")
     = true.
Proof.
  assert (Hne : trim "pt" <> "") by (intros E; vm_compute in E; discriminate E).
  split; [exact Hne|].
  exact (proj1 (proj2 (proj1 (generateRCMComment_notes (form_with (Some "CO-4") (Some "pt"))
                                "pt" eq_refl) Hne))).
Defined.

End CommentFacts.

(* ------------------------------------------------------------------ *)
(** ** Patient accounts *)

Module AccountsFacts.
Import Accounts AccountsDefs.

Lemma z_string_some (v : option json) (s : string) :
  z_string v = Some s -> v = Some (JStr s).
Proof. destruct v as [[]|]; simpl; congruence. Qed.

Lemma z_nullable_some (v : option json) (x : nullable) :
  z_string_nullable_optional v = Some x -> v <> Some JOther.
Proof. destruct v as [[]|]; simpl; congruence. Qed.

Lemma z_nullable_ok (v : option json) :
  v <> Some JOther -> exists x, z_string_nullable_optional v = Some x.
Proof. destruct v as [[]|]; simpl; eauto; congruence. Qed.

Lemma insert_parse_sound (b : body) (a : InsertPatientAccount) :
  insertPatientAccountSchema_parse b = Some a -> insert_body_ok b.
Proof.
  unfold insertPatientAccountSchema_parse.
  repeat match goal with
  | |- context [z_string ?v ≫= _] =>
      let E := fresh "E" in destruct (z_string v) eqn:E; [simpl|discriminate]
  | |- context [z_string_nullable_optional ?v ≫= _] =>
      let E := fresh "E" in destruct (z_string_nullable_optional v) eqn:E; [simpl|discriminate]
  end.
  intros _.
  repeat split;
    repeat match goal with
    | H : z_string _ = Some _ |- _ => apply z_string_some in H
    | H : z_string_nullable_optional _ = Some _ |- _ => apply z_nullable_some in H
    end;
    try (eexists; eassumption).
  repeat constructor; assumption.
Qed.

(** C5, as the spec states it, fails both ways: the request the client's
    "+" button sends, whose insurance name is empty, is accepted and stored;
    a request with the three names filled in but no [sessionId] is refused. *)
Lemma route_create_counterexample :
  (route_create MemStorage_init new_tab_body 0).2 = Created201 new_tab_account
  /\ getPatientAccount (route_create MemStorage_init new_tab_body 0).1 1 = Some new_tab_account
  /\ route_create MemStorage_init no_session_body 0 = (MemStorage_init, InvalidData400).
Proof. repeat split; vm_compute; reflexivity. Qed.

(** C5 (as corrected): a create request is accepted exactly when
    [patientName], [accountNumber], [insuranceName] and [sessionId] are
    strings (possibly empty) and each other column, when present, is a
    string or null.  An accepted request stores one new account under the
    next id, with the strings of the request.  A refused request gets an
    invalid-input response and leaves the store unchanged. *)
Theorem route_create_validation (st : MemStorage) (b : body) (now : Z) :
  (insert_body_ok b ->
     exists a, route_create st b now
       = ({| patientAccounts := <[st.(currentAccountId) := a]> st.(patientAccounts);
             currentAccountId := st.(currentAccountId) + 1 |}, Created201 a)
       /\ a.(id) = st.(currentAccountId)
       /\ b !! "patientName" = Some (JStr a.(patientName))
       /\ b !! "accountNumber" = Some (JStr a.(accountNumber))
       /\ b !! "insuranceName" = Some (JStr a.(insuranceName))
       /\ b !! "sessionId" = Some (JStr a.(sessionId)))
  /\ (~ insert_body_ok b -> route_create st b now = (st, InvalidData400)).
Proof.
  split.
  - intros ([s1 H1] & [s2 H2] & [s3 H3] & [s4 H4] & HF).
    unfold nullable_keys in HF.
    repeat match goal with H : Forall _ (_ :: _) |- _ => inversion_clear H end.
    cbv beta in *.
    unfold route_create, insertPatientAccountSchema_parse.
    rewrite H1, H2, H3, H4.
    repeat match goal with
    | H : b !! ?k <> Some JOther |- _ =>
        let x := fresh "x" in let Hx := fresh "Hx" in
        destruct (z_nullable_ok _ H) as [x Hx]; rewrite Hx; clear H
    end.
    simpl. eexists. split; [reflexivity|]. repeat split.
  - intros Hn. unfold route_create.
    destruct (insertPatientAccountSchema_parse b) eqn:E; [|reflexivity].
    exfalso. apply Hn. eapply insert_parse_sound. exact E.
Qed.

(** C6 (as corrected): for an id with no stored account, reading and
    deleting answer not-found; updating answers not-found when the body
    passes [updatePatientAccountSchema] and invalid-input otherwise, since
    the body is validated before the lookup; the store is unchanged in
    every case. *)
Theorem routes_missing_id (st : MemStorage) (i : Z) (b : body) (now : Z)
    (Hnone : getPatientAccount st i = None) :
  route_get_detail st i = (st, NotFound404)
  /\ route_delete st i = (st, NotFound404)
  /\ route_update st i b now
     = (st, match updatePatientAccountSchema_parse b with
            | Some _ => NotFound404
            | None => InvalidData400
            end).
Proof.
  unfold getPatientAccount in Hnone.
  unfold route_get_detail, route_delete, route_update, getPatientAccount,
    deletePatientAccount, updatePatientAccount.
  rewrite Hnone. repeat split.
  destruct (updatePatientAccountSchema_parse b); reflexivity.
Qed.

(** C6, as the spec states it, fails for the update: a body that does not
    validate gets an invalid-input response even when the id is unknown. *)
Lemma route_update_missing_invalid :
  getPatientAccount MemStorage_init 1 = None
  /\ route_update MemStorage_init 1 (<["patientName" := JOther]> ∅) 0
     = (MemStorage_init, InvalidData400).
Proof. split; vm_compute; reflexivity. Qed.

Lemma spread_field_ok {A} (u : option A) (old : A) : field_ok u old (spread u old).
Proof. destruct u; reflexivity. Qed.

(** C7: updating a stored account yields an account that takes every
    supplied field from the update and keeps every other field (among them
    [id], [createdAt] and, when not supplied, [sessionId]), with [updatedAt]
    set to the time of the update; no other account and not the id counter
    change. *)
Theorem updatePatientAccount_frame (st : MemStorage) (i : Z) (u : UpdatePatientAccount)
    (now : Z) (e : PatientAccount) (He : st.(patientAccounts) !! i = Some e) :
  exists st' a,
    updatePatientAccount st i u now = (st', Some a)
    /\ st'.(patientAccounts) !! i = Some a
    /\ update_agrees u e a
    /\ a.(id) = e.(id) /\ a.(createdAt) = e.(createdAt) /\ a.(updatedAt) = now
    /\ (forall j, j <> i -> st'.(patientAccounts) !! j = st.(patientAccounts) !! j)
    /\ st'.(currentAccountId) = st.(currentAccountId).
Proof.
  unfold updatePatientAccount. rewrite He.
  eexists _, _. split; [reflexivity|]. simpl.
  split; [apply lookup_insert_eq|].
  split; [repeat split; apply spread_field_ok|].
  repeat split.
  intros j Hj. apply lookup_insert_ne. congruence.
Qed.

(** An instance of C6 (as corrected): id 1 in the empty store. *)
Lemma routes_missing_id_witness :
  getPatientAccount MemStorage_init 1 = None
  /\ route_delete MemStorage_init 1 = (MemStorage_init, NotFound404).
Proof.
  assert (Hn : getPatientAccount MemStorage_init 1 = None) by reflexivity.
  split; [exact Hn|].
  exact (proj1 (proj2 (routes_missing_id MemStorage_init 1 ∅ 0 Hn))).
Defined.

(** An instance of C7: the sample update of the first account created. *)
Lemma updatePatientAccount_frame_witness :
  let st := (createPatientAccount MemStorage_init sample_insert 0).1 in
  let e := (createPatientAccount MemStorage_init sample_insert 0).2 in
  st.(patientAccounts) !! 1%Z = Some e
  /\ exists st' a, updatePatientAccount st 1%Z sample_update 5%Z = (st', Some a)
                   /\ st'.(patientAccounts) !! 1%Z = Some a /\ a.(updatedAt) = 5%Z.
Proof.
  intros st e.
  assert (He : st.(patientAccounts) !! 1%Z = Some e) by reflexivity.
  split; [exact He|].
  destruct (updatePatientAccount_frame st 1%Z sample_update 5%Z e He)
    as (st' & a & H1 & H2 & _ & _ & _ & H3 & _).
  exists st', a. split; [exact H1|]. split; [exact H2|exact H3].
Defined.

Lemma store_inv_init : store_inv MemStorage_init.
Proof. split; [simpl; lia|apply map_Forall_empty]. Qed.

Lemma serve_inv (st : MemStorage) (r : request) (st' : MemStorage)
    (c : option (PatientAccount * Z)) :
  store_inv st -> serve st r = (st', c) ->
  store_inv st'
  /\ st'.(currentAccountId) = (st.(currentAccountId) + if c then 1 else 0)%Z
  /\ (forall a t, c = Some (a, t) ->
        a.(id) = st.(currentAccountId) /\ a.(createdAt) = t /\ a.(updatedAt) = t).
Proof.
  intros [Hpos Hall] E. destruct r as [i|b now|i b now|i]; simpl in E.
  - unfold route_get_detail in E.
    destruct (getPatientAccount st i); simpl in E; injection E as <- <-;
      (split; [split; assumption|split; [lia|discriminate]]).
  - unfold route_create in E.
    destruct (insertPatientAccountSchema_parse b) as [ia|]; simpl in E;
      injection E as <- <-.
    + split; [split|split; [reflexivity|]].
      * simpl; lia.
      * simpl. apply map_Forall_insert_2; [simpl; lia|].
        eapply map_Forall_impl; [exact Hall|].
        intros k a' [Hid Hk]; split; [exact Hid|lia].
      * intros a t H; injection H as <- <-; simpl; auto.
    + split; [split; assumption|split; [lia|discriminate]].
  - unfold route_update in E.
    destruct (updatePatientAccountSchema_parse b) as [u|]; simpl in E.
    + unfold updatePatientAccount in E.
      destruct (patientAccounts st !! i) as [e|] eqn:Hl; simpl in E;
        injection E as <- <-.
      * pose proof (map_Forall_lookup_1 _ _ _ _ Hall Hl) as [Hid Hi].
        split; [split|split; [simpl; lia|discriminate]].
        -- simpl; lia.
        -- simpl. apply map_Forall_insert_2; [simpl; split; [exact Hid|lia]|exact Hall].
      * split; [split; assumption|split; [lia|discriminate]].
    + injection E as <- <-.
      split; [split; assumption|split; [lia|discriminate]].
  - unfold route_delete, deletePatientAccount in E.
    destruct (patientAccounts st !! i); simpl in E; injection E as <- <-.
    + split; [split|split; [simpl; lia|discriminate]].
      * simpl; lia.
      * simpl. apply map_Forall_delete. exact Hall.
    + split; [split; assumption|split; [lia|discriminate]].
Qed.

Lemma serve_all_gen (rs : list request) (st : MemStorage) :
  store_inv st ->
  store_inv (serve_all st rs).1
  /\ (serve_all st rs).1.(currentAccountId)
     = (st.(currentAccountId) + Z.of_nat (length (serve_all st rs).2))%Z
  /\ (forall k a t, (serve_all st rs).2 !! k = Some (a, t) ->
        a.(id) = (st.(currentAccountId) + Z.of_nat k)%Z
        /\ a.(createdAt) = t /\ a.(updatedAt) = t).
Proof.
  revert st. induction rs as [|r rs IH]; intros st Hinv.
  - simpl. split; [exact Hinv|split; [lia|]]. intros k a t H. rewrite lookup_nil in H. discriminate.
  - simpl. destruct (serve st r) as [st1 c] eqn:E.
    destruct (serve_inv st r st1 c Hinv E) as (Hinv1 & Hcur1 & Hc).
    specialize (IH st1 Hinv1).
    destruct (serve_all st1 rs) as [st2 cs]. simpl in IH |- *.
    destruct IH as (Hinv2 & Hcur2 & Hcs).
    destruct c as [[a0 t0]|].
    + split; [exact Hinv2|split].
      * simpl length. lia.
      * intros [|k] a t H; simpl in H.
        -- injection H as <- <-. destruct (Hc a0 t0 eq_refl) as (? & ? & ?).
           split; [lia|auto].
        -- destruct (Hcs k a t H) as (? & ? & ?). split; [lia|auto].
    + split; [exact Hinv2|split].
      * lia.
      * intros k a t H. destruct (Hcs k a t H) as (? & ? & ?). split; [lia|auto].
Qed.

(** C8: from the empty store, over any sequence of requests, the [k]-th
    successful create (counting from 0) makes the account with id [k + 1],
    whose [createdAt] and [updatedAt] are both the time of that request; the
    counter ends one above the last id given out; every stored account sits
    under its own id, so two stored accounts with the same id are the same
    entry. *)
Theorem serve_all_sequential_ids (rs : list request) :
  (forall k a t, (serve_all MemStorage_init rs).2 !! k = Some (a, t) ->
     a.(id) = (Z.of_nat k + 1)%Z /\ a.(createdAt) = t /\ a.(updatedAt) = t)
  /\ (serve_all MemStorage_init rs).1.(currentAccountId)
     = (Z.of_nat (length (serve_all MemStorage_init rs).2) + 1)%Z
  /\ store_inv (serve_all MemStorage_init rs).1
  /\ (forall k1 k2 a1 a2,
        (serve_all MemStorage_init rs).1.(patientAccounts) !! k1 = Some a1 ->
        (serve_all MemStorage_init rs).1.(patientAccounts) !! k2 = Some a2 ->
        a1.(id) = a2.(id) -> k1 = k2 /\ a1 = a2).
Proof.
  destruct (serve_all_gen rs MemStorage_init store_inv_init) as (Hinv & Hcur & Hcs).
  simpl in Hcur, Hcs.
  split; [|split; [lia|split; [exact Hinv|]]].
  - intros k a t H. destruct (Hcs k a t H) as (? & ? & ?). split; [lia|auto].
  - intros k1 k2 a1 a2 H1 H2 Hid. destruct Hinv as [_ Hall].
    destruct (map_Forall_lookup_1 _ _ _ _ Hall H1) as [E1 _].
    destruct (map_Forall_lookup_1 _ _ _ _ Hall H2) as [E2 _].
    assert (k1 = k2) as <- by congruence. split; [reflexivity|congruence].
Qed.

End AccountsFacts.

(* ------------------------------------------------------------------ *)
(** ** Further properties of the account schemas, store and routes *)

Module AccountsMoreFacts.
Import Accounts AccountsDefs AccountsMoreDefs Sessions AccountsFacts.

Lemma z_string_optional_some (v : option json) (x : option string) :
  z_string_optional v = Some x -> optional_string v.
Proof.
  destruct v as [[]|]; simpl; try discriminate; intros _; [right; eauto|left; reflexivity].
Qed.

Lemma z_nullable2_some (v : option json) (x : option nullable) :
  z_string_nullable_optional_optional v = Some x -> v <> Some JOther.
Proof. destruct v as [[]|]; simpl; congruence. Qed.

Lemma z_string_optional_ok (v : option json) :
  optional_string v -> exists x, z_string_optional v = Some x.
Proof. intros [->|[s ->]]; simpl; eauto. Qed.

Lemma z_nullable2_ok (v : option json) :
  v <> Some JOther -> exists x, z_string_nullable_optional_optional v = Some x.
Proof. destruct v as [[]|]; simpl; eauto; congruence. Qed.

(** X4: the create and update schemas read only the twelve columns: any
    other key of the body, [id], [createdAt] and [updatedAt] among them, is
    ignored, so a client can set neither the id nor the timestamps. *)
Theorem schemas_ignore_unknown_keys (b : body) (k : string) (v : json)
    (Hk : k ∉ account_columns) :
  insertPatientAccountSchema_parse (<[k := v]> b) = insertPatientAccountSchema_parse b
  /\ updatePatientAccountSchema_parse (<[k := v]> b) = updatePatientAccountSchema_parse b.
Proof.
  assert (Hne : forall c, c ∈ account_columns -> k <> c) by (intros c Hc ->; exact (Hk Hc)).
  unfold insertPatientAccountSchema_parse, updatePatientAccountSchema_parse.
  rewrite !lookup_insert_ne
    by (apply Hne; apply list_elem_of_In; unfold account_columns, nullable_keys; simpl; tauto).
  split; reflexivity.
Qed.

Lemma schemas_ignore_unknown_keys_witness :
  insertPatientAccountSchema_parse (<["id" := JStr "999"]> new_tab_body)
  = insertPatientAccountSchema_parse new_tab_body.
Proof.
  assert (Hk : "id" ∉ account_columns).
  { intros H. apply list_elem_of_In in H. unfold account_columns, nullable_keys in H.
    simpl in H. intuition discriminate. }
  exact (proj1 (schemas_ignore_unknown_keys new_tab_body "id" (JStr "999") Hk)).
Defined.

(** X5: a PATCH body passes [updatePatientAccountSchema] exactly when each
    of [patientName], [accountNumber], [insuranceName] and [sessionId] is
    absent or a string (null is refused) and each nullable column is absent,
    a string or null; every body the create schema accepts is accepted. *)
Theorem updatePatientAccountSchema_accepts (b : body) :
  (is_Some (updatePatientAccountSchema_parse b) <-> update_body_ok b)
  /\ (insert_body_ok b -> update_body_ok b).
Proof.
  split; [split|].
  - intros [u Hu]. revert Hu.
    unfold updatePatientAccountSchema_parse.
    repeat match goal with
    | |- context [z_string_optional ?v ≫= _] =>
        let E := fresh "E" in destruct (z_string_optional v) eqn:E; [simpl|discriminate]
    | |- context [z_string_nullable_optional_optional ?v ≫= _] =>
        let E := fresh "E" in
        destruct (z_string_nullable_optional_optional v) eqn:E; [simpl|discriminate]
    end.
    intros _.
    repeat match goal with
    | H : z_string_optional _ = Some _ |- _ => apply z_string_optional_some in H
    | H : z_string_nullable_optional_optional _ = Some _ |- _ => apply z_nullable2_some in H
    end.
    repeat split; try assumption.
    repeat constructor; assumption.
  - intros (H1 & H2 & H3 & H4 & HF).
    unfold nullable_keys in HF.
    repeat match goal with H : Forall _ (_ :: _) |- _ => inversion_clear H end.
    cbv beta in *.
    unfold updatePatientAccountSchema_parse.
    repeat match goal with
    | H : optional_string (b !! ?k) |- _ =>
        let x := fresh "x" in let Hx := fresh "Hx" in
        destruct (z_string_optional_ok _ H) as [x Hx]; rewrite Hx; clear H
    | H : b !! ?k <> Some JOther |- _ =>
        let x := fresh "x" in let Hx := fresh "Hx" in
        destruct (z_nullable2_ok _ H) as [x Hx]; rewrite Hx; clear H
    end.
    simpl. eexists. reflexivity.
  - intros (H1 & H2 & H3 & H4 & HF).
    repeat split; try exact HF; right; assumption.
Qed.

(** X6: a successful create never overwrites a stored account (its id was
    free), the new account is then what the detail route returns, no other
    entry changes, and the store keeps its invariant. *)
Theorem route_create_fresh (st st' : MemStorage) (b : body) (now : Z) (a : PatientAccount)
    (Hinv : store_inv st) (Hc : route_create st b now = (st', Created201 a)) :
  st.(patientAccounts) !! a.(id) = None
  /\ route_get_detail st' a.(id) = (st', Ok200 a)
  /\ (forall j, j <> a.(id) -> st'.(patientAccounts) !! j = st.(patientAccounts) !! j)
  /\ store_inv st'.
Proof.
  assert (Hs : serve st (RCreate b now) = (st', Some (a, now))) by (simpl; rewrite Hc; reflexivity).
  destruct (serve_inv _ _ _ _ Hinv Hs) as (Hinv' & _).
  destruct Hinv as [_ Hall].
  unfold route_create in Hc.
  destruct (insertPatientAccountSchema_parse b) as [ia|]; [|discriminate].
  unfold createPatientAccount in Hc. simpl in Hc. injection Hc as <- <-. simpl.
  split; [|split; [|split]].
  - destruct (patientAccounts st !! currentAccountId st) as [e|] eqn:E; [|reflexivity].
    destruct (map_Forall_lookup_1 _ _ _ _ Hall E) as [_ ?]. lia.
  - unfold route_get_detail, getPatientAccount. simpl. rewrite lookup_insert_eq. reflexivity.
  - intros j Hj. apply lookup_insert_ne. congruence.
  - exact Hinv'.
Qed.

Lemma route_create_fresh_witness :
  route_get_detail (route_create MemStorage_init new_tab_body 0).1 1
  = ((route_create MemStorage_init new_tab_body 0).1, Ok200 new_tab_account).
Proof.
  assert (Hc : route_create MemStorage_init new_tab_body 0
               = ((route_create MemStorage_init new_tab_body 0).1, Created201 new_tab_account))
    by (vm_compute; reflexivity).
  exact (proj1 (proj2 (route_create_fresh _ _ _ _ _ store_inv_init Hc))).
Defined.

(** X7: after a successful DELETE of an id, reading and deleting that id
    answer not-found, no other entry and not the id counter changed, and
    (in a store that keeps its invariant) the deleted id lies below the
    counter, so it is never handed out again. *)
Theorem route_delete_then (st st' : MemStorage) (i : Z)
    (Hd : route_delete st i = (st', NoContent204)) :
  route_get_detail st' i = (st', NotFound404)
  /\ route_delete st' i = (st', NotFound404)
  /\ (forall j, j <> i -> st'.(patientAccounts) !! j = st.(patientAccounts) !! j)
  /\ st'.(currentAccountId) = st.(currentAccountId)
  /\ (store_inv st -> (i < st'.(currentAccountId))%Z).
Proof.
  unfold route_delete, deletePatientAccount in Hd.
  destruct (patientAccounts st !! i) as [e|] eqn:E; simpl in Hd; [|discriminate].
  injection Hd as <-. simpl.
  unfold route_get_detail, route_delete, deletePatientAccount, getPatientAccount. simpl.
  rewrite lookup_delete_eq. repeat split.
  - intros j Hj. apply lookup_delete_ne. congruence.
  - intros [_ Hall]. destruct (map_Forall_lookup_1 _ _ _ _ Hall E) as [_ ?]. lia.
Qed.

Lemma route_delete_then_witness :
  route_get_detail (route_delete (route_create MemStorage_init new_tab_body 0).1 1).1 1
  = ((route_delete (route_create MemStorage_init new_tab_body 0).1 1).1, NotFound404).
Proof.
  assert (Hd : route_delete (route_create MemStorage_init new_tab_body 0).1 1
               = ((route_delete (route_create MemStorage_init new_tab_body 0).1 1).1, NoContent204))
    by (vm_compute; reflexivity).
  exact (proj1 (route_delete_then _ _ _ Hd)).
Defined.

(** X8: a PATCH with an empty body on a stored account succeeds and changes
    nothing but the account's [updatedAt]. *)
Theorem route_update_empty_body (st : MemStorage) (i now : Z) (e : PatientAccount)
    (He : st.(patientAccounts) !! i = Some e) :
  route_update st i ∅ now
  = ({| patientAccounts := <[i := touched e now]> st.(patientAccounts);
        currentAccountId := st.(currentAccountId) |}, Ok200 (touched e now)).
Proof.
  unfold route_update, updatePatientAccountSchema_parse.
  rewrite !lookup_empty. simpl.
  unfold updatePatientAccount. rewrite He. reflexivity.
Qed.

Lemma route_update_empty_body_witness :
  (route_update (route_create MemStorage_init new_tab_body 0).1 1 ∅ 7).2
  = Ok200 (touched new_tab_account 7).
Proof.
  assert (He : (route_create MemStorage_init new_tab_body 0).1.(patientAccounts) !! 1%Z
               = Some new_tab_account) by (vm_compute; reflexivity).
  rewrite (route_update_empty_body _ 1 7 _ He). reflexivity.
Defined.

Lemma filter_nodup_ids (f : PatientAccount -> bool) (l : list PatientAccount) :
  List.NoDup (List.map id l) -> List.NoDup (List.map id (List.filter f l)).
Proof.
  induction l as [|a l IH]; simpl; [tauto|].
  intros Hnd. inversion Hnd as [|? ? Hnin Hnd']; subst.
  destruct (f a); simpl; [|exact (IH Hnd')].
  constructor; [|exact (IH Hnd')].
  intros Hin. apply Hnin. apply in_map_iff in Hin as [x [Hx Hin]].
  apply filter_In in Hin as [Hin _]. apply in_map_iff. eauto.
Qed.

Lemma list_map_fmap {A B} (f : A -> B) (l : list A) : List.map f l = f <$> l.
Proof. induction l as [|x l IH]; simpl; [reflexivity|]. rewrite IH. reflexivity. Qed.

(** X9: [GET /api/accounts/:sessionId] returns exactly the stored accounts
    of that session, each once (no two with the same id), and changes
    nothing. *)
Theorem getPatientAccountsBySession_spec (st : MemStorage) (sid : string)
    (Hinv : store_inv st) :
  (forall a, In a (getPatientAccountsBySession st sid)
             <-> exists k, st.(patientAccounts) !! k = Some a /\ a.(sessionId) = sid)
  /\ List.NoDup (List.map id (getPatientAccountsBySession st sid))
  /\ route_get_session st sid = (st, getPatientAccountsBySession st sid).
Proof.
  destruct Hinv as [_ Hall].
  unfold getPatientAccountsBySession.
  split; [|split; [|reflexivity]].
  - intros a. rewrite filter_In, in_map_iff. split.
    + intros [[[k a'] [Ha Hin]] Hs]. simpl in Ha. subst a'.
      exists k. split; [|apply String.eqb_eq; exact Hs].
      apply elem_of_map_to_list. apply list_elem_of_In. exact Hin.
    + intros [k [Hk Hs]]. split; [|apply String.eqb_eq; exact Hs].
      exists (k, a). split; [reflexivity|].
      apply list_elem_of_In. apply elem_of_map_to_list. exact Hk.
  - apply filter_nodup_ids.
    rewrite map_map.
    assert (Hm : List.map (fun x => id x.2) (map_to_list st.(patientAccounts))
                 = List.map fst (map_to_list st.(patientAccounts))).
    { apply map_ext_in. intros [k a] Hin. simpl.
      apply list_elem_of_In, elem_of_map_to_list in Hin.
      exact (proj1 (map_Forall_lookup_1 _ _ _ _ Hall Hin)). }
    rewrite Hm. apply NoDup_ListNoDup. rewrite list_map_fmap.
    apply NoDup_fst_map_to_list.
Qed.

Lemma getPatientAccountsBySession_spec_witness :
  List.NoDup (List.map id (getPatientAccountsBySession
    (route_create MemStorage_init new_tab_body 0).1 "session-1")).
Proof.
  assert (Hinv : store_inv (route_create MemStorage_init new_tab_body 0).1).
  { split; [vm_compute; discriminate|].
    apply (bool_decide_unpack _). vm_compute. reflexivity. }
  exact (proj1 (proj2 (getPatientAccountsBySession_spec _ "session-1" Hinv))).
Defined.

End AccountsMoreFacts.

(* ------------------------------------------------------------------ *)
(** ** The user part of the storage *)

Module UsersFacts.
Import Users UsersDefs.

Lemma jsmap_set_fresh {V} (m : JsMap V) (k : Z) (v : V) :
  Forall (fun p => p.1 <> k) m -> jsmap_set m k v = (m ++ [(k, v)])%list.
Proof.
  induction m as [|[k' v'] m IH]; simpl; [reflexivity|].
  intros Hm. inversion_clear Hm as [|? ? Hk Hm'].
  simpl in Hk. apply Z.eqb_neq in Hk. rewrite Hk, (IH Hm'). reflexivity.
Qed.

Lemma createUsers_gen (st : UserStore) (L : list User) (us : list InsertUser) :
  st.(users) = List.map (fun u => (u.(user_id), u)) L ->
  Forall (fun u => (u.(user_id) < st.(currentUserId))%Z) L ->
  (createUsers st us).2 = users_from st.(currentUserId) us
  /\ (createUsers st us).1.(users)
     = List.map (fun u => (u.(user_id), u)) (L ++ users_from st.(currentUserId) us)%list
  /\ (createUsers st us).1.(currentUserId) = (st.(currentUserId) + Z.of_nat (length us))%Z.
Proof.
  revert st L. induction us as [|u us IH]; intros st L HL Hlt.
  - simpl. rewrite app_nil_r. repeat split; [exact HL|lia].
  - simpl.
    set (user := {| user_id := currentUserId st; username := iu_username u;
                    password := iu_password u |}).
    set (st1 := {| users := jsmap_set (users st) (currentUserId st) user;
                   currentUserId := (currentUserId st + 1)%Z |}).
    assert (HL1 : users st1 = List.map (fun u => (u.(user_id), u)) (L ++ [user])%list).
    { simpl. rewrite HL, jsmap_set_fresh, map_app; [reflexivity|].
      apply Forall_forall. intros p Hp. apply list_elem_of_In, in_map_iff in Hp as [x [<- Hx]].
      simpl. eapply Forall_forall in Hlt; [|apply list_elem_of_In; exact Hx]. lia. }
    assert (Hlt1 : Forall (fun u => (u.(user_id) < st1.(currentUserId))%Z) (L ++ [user])%list).
    { apply Forall_app. split.
      - eapply Forall_impl; [exact Hlt|]. simpl. intros x Hx. lia.
      - constructor; [simpl; lia|constructor]. }
    destruct (IH st1 _ HL1 Hlt1) as (H1 & H2 & H3).
    destruct (createUsers st1 us) as [st2 created] eqn:E. simpl in *.
    rewrite H1. repeat split.
    + rewrite H2, <- app_assoc. reflexivity.
    + rewrite H3. lia.
Qed.

Lemma users_from_length (i : Z) (us : list InsertUser) : length (users_from i us) = length us.
Proof. revert i; induction us; intros i; simpl; [reflexivity|]. rewrite IHus. reflexivity. Qed.

Lemma jsmap_get_users_from (i : Z) (us : list InsertUser) (j : Z) :
  jsmap_get (List.map (fun u => (u.(user_id), u)) (users_from i us)) j
  = if (i <=? j)%Z then users_from i us !! Z.to_nat (j - i) else None.
Proof.
  revert i. induction us as [|u us IH]; intros i.
  - unfold jsmap_get. simpl. destruct (i <=? j)%Z; reflexivity.
  - unfold jsmap_get in *. simpl.
    destruct (Z.eqb_spec i j) as [<-|Hne].
    + rewrite Z.leb_refl, Z.sub_diag. reflexivity.
    + rewrite IH.
      destruct (Z.leb_spec (i + 1) j), (Z.leb_spec i j); try lia.
      * replace (Z.to_nat (j - i)) with (S (Z.to_nat (j - (i + 1)))) by lia.
        reflexivity.
      * reflexivity.
Qed.

Lemma users_from_lookup (i : Z) (us : list InsertUser) (k : nat) :
  users_from i us !! k
  = (fun u => {| user_id := (i + Z.of_nat k)%Z; username := u.(iu_username);
                 password := u.(iu_password) |}) <$> us !! k.
Proof.
  revert i k. induction us as [|u us IH]; intros i k; [reflexivity|].
  destruct k as [|k]; simpl.
  - rewrite Z.add_0_r. reflexivity.
  - rewrite IH. destruct (us !! k); simpl; [|reflexivity]. do 2 f_equal. lia.
Qed.

(** X10: from the empty store, a run of [createUser] calls never refuses
    one (not even for a repeated username): the [k]-th call (from 0)
    returns the user with id [k + 1] and the given username and password,
    [getUser] finds it under that id and nothing under other ids,
    [getUserByUsername] returns the earliest created user with that name,
    and the id counter ends one past the number of calls. *)
Theorem createUsers_from_init (us : list InsertUser) :
  let '(st, created) := createUsers UserStore_init us in
  length created = length us
  /\ (forall k, created !! k
        = (fun u => {| user_id := Z.of_nat k + 1; username := u.(iu_username);
                       password := u.(iu_password) |}) <$> us !! k)
  /\ (forall k, getUser st (Z.of_nat k + 1) = created !! k)
  /\ (forall i, (i < 1)%Z -> getUser st i = None)
  /\ (forall name, getUserByUsername st name
                   = List.find (fun user => String.eqb user.(username) name) created)
  /\ st.(currentUserId) = (Z.of_nat (length us) + 1)%Z.
Proof.
  destruct (createUsers_gen UserStore_init [] us eq_refl (List.Forall_nil _)) as (H1 & H2 & H3).
  destruct (createUsers UserStore_init us) as [st created]. simpl in *.
  subst created.
  split; [apply users_from_length|split; [|split; [|split; [|split]]]].
  - intros k. rewrite users_from_lookup. destruct (us !! k); simpl; [|reflexivity]. do 2 f_equal. lia.
  - intros k. unfold getUser. rewrite H2, jsmap_get_users_from.
    rewrite (proj2 (Z.leb_le 1 (Z.of_nat k + 1))) by lia.
    f_equal. lia.
  - intros i Hi. unfold getUser. rewrite H2, jsmap_get_users_from.
    rewrite (proj2 (Z.leb_gt 1 i)) by lia. reflexivity.
  - intros name. unfold getUserByUsername, jsmap_values. rewrite H2, map_map. simpl.
    rewrite map_id. reflexivity.
  - rewrite H3. lia.
Qed.

End UsersFacts.

(* ------------------------------------------------------------------ *)
(** ** The CSV export read back *)

Module CsvFacts.
Import JsString Accounts CsvExport CsvReader StrFacts.

Lemma includes_empty_char (c : ascii) : includes "" (char_str c) = false.
Proof. reflexivity. Qed.

Lemma includes_cons_char (x c : ascii) (s : string) :
  includes (String x s) (char_str c) = Ascii.eqb c x || includes s (char_str c).
Proof.
  simpl. destruct (ascii_dec c x) as [<-|Hne].
  - rewrite Ascii.eqb_refl. destruct s; reflexivity.
  - apply Ascii.eqb_neq in Hne. rewrite Hne. reflexivity.
Qed.

Lemma includes_app_char (a b : string) (c : ascii) :
  includes (a +:+ b) (char_str c) = includes a (char_str c) || includes b (char_str c).
Proof.
  induction a as [|x a IH].
  - rewrite append_empty. reflexivity.
  - rewrite append_cons, !includes_cons_char, IH, orb_assoc. reflexivity.
Qed.

Lemma finish_field_rev (x : string) : finish_field (List.rev (list_ascii_of_string x)) = x.
Proof. unfold finish_field. rewrite rev_involutive. apply string_of_list_ascii_of_string. Qed.

Lemma list_ascii_cons (c : ascii) (s : string) :
  list_ascii_of_string (String c s) = c :: list_ascii_of_string s.
Proof. reflexivity. Qed.

(** A quoted field: the reader undoes [escape_quotes]. *)
Lemma read_escaped (f t : string) (fld : list ascii) (row : list string) :
  csv_read InQuotes (escape_quotes f +:+ String dq t) fld row
  = csv_read QuoteInQuotes t (List.rev (list_ascii_of_string f) ++ fld) row.
Proof.
  revert fld. induction f as [|c f IH]; intros fld.
  - rewrite append_empty. reflexivity.
  - simpl escape_quotes. rewrite list_ascii_cons. simpl List.rev. rewrite <- app_assoc.
    destruct (Ascii.eqb c dq) eqn:E.
    + apply Ascii.eqb_eq in E. subst c. rewrite !append_cons. simpl. apply IH.
    + rewrite append_cons. simpl. rewrite E. apply IH.
Qed.

(** An unquoted field without comma or line feed. *)
Lemma read_plain (f t : string) (fld : list ascii) (row : list string) :
  includes f (char_str comma) = false -> includes f (char_str nl) = false ->
  csv_read Unquoted (f +:+ t) fld row
  = csv_read Unquoted t (List.rev (list_ascii_of_string f) ++ fld) row.
Proof.
  revert fld. induction f as [|c f IH]; intros fld Hc Hn.
  - rewrite append_empty. reflexivity.
  - rewrite includes_cons_char in Hc, Hn. apply orb_false_iff in Hc as [Hc1 Hc2].
    apply orb_false_iff in Hn as [Hn1 Hn2].
    rewrite append_cons, list_ascii_cons. simpl List.rev. rewrite <- app_assoc.
    simpl. rewrite Ascii.eqb_sym, Hc1, Ascii.eqb_sym, Hn1. apply (IH _ Hc2 Hn2).
Qed.

(** At the end of the text, a comma or a line feed, the modes that close a
    field act alike. *)
Lemma read_terminator (m : csv_mode) (t : string) (fld : list ascii) (row : list string) :
  m <> InQuotes ->
  t = "" \/ (exists t', t = String comma t' \/ t = String nl t') ->
  csv_read m t fld row = csv_read FieldStart t fld row.
Proof.
  intros Hm [->|[t' [->| ->]]]; destruct m; try congruence; reflexivity.
Qed.

Lemma read_cell (x t : string) (row : list string) :
  t = "" \/ (exists t', t = String comma t' \/ t = String nl t') ->
  csv_read FieldStart (csv_cell x +:+ t) [] row
  = csv_read FieldStart t (List.rev (list_ascii_of_string x)) row.
Proof.
  intros Ht. unfold csv_cell.
  destruct (includes x (char_str comma)) eqn:Hc; simpl orb;
    [|destruct (includes x (char_str dq)) eqn:Hq; simpl orb;
      [|destruct (includes x (char_str nl)) eqn:Hn]].
  1,2,3: cbv iota; rewrite append_cons, append_assoc_str; unfold char_str at 1; rewrite append_cons, append_empty; simpl;
    rewrite read_escaped, app_nil_r; apply read_terminator; [discriminate|exact Ht].
  destruct x as [|c x].
  - rewrite append_empty. reflexivity.
  - rewrite includes_cons_char in Hc, Hq, Hn.
    apply orb_false_iff in Hc as [Hc1 Hc2]. apply orb_false_iff in Hq as [Hq1 _].
    apply orb_false_iff in Hn as [Hn1 Hn2].
    rewrite append_cons. simpl.
    rewrite Ascii.eqb_sym, Hq1, Ascii.eqb_sym, Hc1, Ascii.eqb_sym, Hn1.
    rewrite read_plain by assumption.
    apply read_terminator; [discriminate|exact Ht].
Qed.

(** A whole line of cells, followed by the end of a record. *)
Lemma read_line (r : list string) (x t : string) (acc : list string)
    (K : list (list string)) :
  t = "" \/ (exists t', t = String comma t' \/ t = String nl t') ->
  (forall fld row, csv_read FieldStart t fld row = List.rev (finish_field fld :: row) :: K) ->
  csv_read FieldStart (csv_line (x :: r) +:+ t) [] acc = (List.rev acc ++ x :: r)%list :: K.
Proof.
  intros Ht HK. revert x acc. induction r as [|y r IH]; intros x acc.
  - unfold csv_line. simpl map. simpl join. rewrite read_cell by exact Ht.
    rewrite HK, finish_field_rev. reflexivity.
  - unfold csv_line in *. simpl map. simpl join. fold (map csv_cell (y :: r)).
    rewrite append_assoc_str, append_assoc_str. unfold char_str at 1.
    rewrite append_cons, append_empty.
    rewrite read_cell by (right; eauto). simpl. rewrite finish_field_rev.
    specialize (IH y (x :: acc)). simpl in IH. unfold csv_line in IH.
    simpl map in IH. rewrite IH, <- app_assoc. reflexivity.
Qed.

(** Lines of cells joined by line feeds read back as their rows. *)
Lemma read_lines (rows : list (list string)) (r : list string) :
  Forall (fun r => r <> []) (r :: rows) ->
  parse_csv (join (char_str nl) (map csv_line (r :: rows))) = r :: rows.
Proof.
  unfold parse_csv. revert r. induction rows as [|r2 rows IH]; intros r Hne;
    inversion_clear Hne as [|? ? Hr Hrs]; destruct r as [|x r]; try congruence.
  - simpl map. simpl join. rewrite <- (append_nil_r (csv_line (x :: r))).
    rewrite (read_line r x "" [] []); [reflexivity|left; reflexivity|reflexivity].
  - change (join (char_str nl) (map csv_line ((x :: r) :: r2 :: rows)))
      with (csv_line (x :: r) +:+ char_str nl +:+ join (char_str nl) (map csv_line (r2 :: rows))).
    unfold char_str at 1. rewrite append_cons, append_empty.
    rewrite (read_line r x _ [] (r2 :: rows)); [reflexivity|right; eauto|].
    intros fld row. simpl. f_equal. exact (IH r2 Hrs).
Qed.

Lemma digits_no_char (c : ascii) (fuel n : nat) (acc : string) :
  (nat_of_ascii c < 48)%nat ->
  includes acc (char_str c) = false -> includes (digits_go fuel n acc) (char_str c) = false.
Proof.
  intros Hc. revert n acc. induction fuel as [|fuel IH]; intros n acc Hacc; simpl; [exact Hacc|].
  assert (Hd : includes (String (ascii_of_nat (48 + n mod 10)) acc) (char_str c) = false).
  { rewrite includes_cons_char, Hacc, orb_false_r. apply Ascii.eqb_neq. intros E.
    assert (Hm := Nat.mod_upper_bound n 10 ltac:(lia)).
    apply (f_equal nat_of_ascii) in E. rewrite nat_ascii_embedding in E by lia. lia. }
  destruct (Nat.ltb n 10); [exact Hd|apply IH, Hd].
Qed.

Lemma csv_cell_plain (s : string) :
  includes s (char_str comma) = false -> includes s (char_str dq) = false ->
  includes s (char_str nl) = false -> csv_cell s = s.
Proof. intros H1 H2 H3. unfold csv_cell. rewrite H1, H2, H3. reflexivity. Qed.

Lemma csv_cell_prefixed (p s : string) :
  includes p (char_str comma) = false -> includes p (char_str dq) = false ->
  includes p (char_str nl) = false ->
  includes s (char_str comma) = false -> includes s (char_str dq) = false ->
  includes s (char_str nl) = false -> csv_line [p +:+ s] = p +:+ s.
Proof.
  intros. unfold csv_line. simpl. apply csv_cell_plain; rewrite includes_app_char;
    apply orb_false_iff; split; assumption.
Qed.

(** X11: the CSV text of [exportSession] read back with an RFC 4180
    reader gives the four comment lines, an empty line, the header row and
    then, for each account in order, exactly its thirteen export values,
    whatever commas, double quotes or line feeds those values contain;
    this holds when the session id and the export date contain no comma,
    double quote or line feed (those two are written unescaped). *)
Theorem csvContent_read_back (localeString : Z -> string) (sid exportDate : string)
    (accounts : list PatientAccount)
    (Hs1 : includes sid (char_str comma) = false) (Hs2 : includes sid (char_str dq) = false)
    (Hs3 : includes sid (char_str nl) = false)
    (Hd1 : includes exportDate (char_str comma) = false)
    (Hd2 : includes exportDate (char_str dq) = false)
    (Hd3 : includes exportDate (char_str nl) = false) :
  parse_csv (csvContent localeString sid exportDate accounts)
  = ([["# AR Copilot Session Export"]; ["# Session ID: " +:+ sid];
      ["# Export Date: " +:+ exportDate];
      ["# Total Accounts: " +:+ string_of_nat (length accounts)]; [""]; export_headers]
     ++ map (export_row localeString) accounts)%list.
Proof.
  unfold csvContent.
  assert (Hn : forall c, (nat_of_ascii c < 48)%nat ->
               includes (string_of_nat (length accounts)) (char_str c) = false)
    by (intros c Hc; apply digits_no_char; [exact Hc|reflexivity]).
  transitivity (parse_csv (join (char_str nl) (map csv_line
    ([["# AR Copilot Session Export"]; ["# Session ID: " +:+ sid];
      ["# Export Date: " +:+ exportDate];
      ["# Total Accounts: " +:+ string_of_nat (length accounts)]; [""]; export_headers]
     ++ map (export_row localeString) accounts)%list))).
  { rewrite map_app. cbn [map].
    rewrite (csv_cell_prefixed "# Session ID: " sid) by (reflexivity || assumption).
    rewrite (csv_cell_prefixed "# Export Date: " exportDate) by (reflexivity || assumption).
    rewrite (csv_cell_prefixed "# Total Accounts: " (string_of_nat (length accounts)))
      by (reflexivity || (apply Hn; vm_compute; lia)).
    change (csv_line ["# AR Copilot Session Export"]) with "# AR Copilot Session Export".
    change (csv_line [""]) with "".
    change (csv_line export_headers) with (join (char_str comma) export_headers).
    reflexivity. }
  apply (read_lines _ [_]).
  do 6 (constructor; [unfold export_headers; discriminate|]).
  apply Forall_forall. intros r Hr. apply list_elem_of_In, in_map_iff in Hr as [a [<- _]].
  discriminate.
Qed.

Lemma csvContent_read_back_witness :
  parse_csv (csvContent (fun _ => "1/1/1970, 12:00:00 AM") "session-1" "2026-10-15 09:00"
               [Accounts.Build_PatientAccount 1 "Doe, Jane" "ACC-1" "medicare" None None
                  (Some (Some "CO-16")) None None None None
                  (Some (Some (String dq "call back"))) "session-1" 0 0])
  = [["# AR Copilot Session Export"]; ["# Session ID: session-1"];
     ["# Export Date: 2026-10-15 09:00"]; ["# Total Accounts: 1"]; [""]; export_headers;
     export_row (fun _ => "1/1/1970, 12:00:00 AM")
       (Accounts.Build_PatientAccount 1 "Doe, Jane" "ACC-1" "medicare" None None
          (Some (Some "CO-16")) None None None None
          (Some (Some (String dq "call back"))) "session-1" 0 0)].
Proof.
  exact (csvContent_read_back (fun _ => "1/1/1970, 12:00:00 AM") "session-1"
           "2026-10-15 09:00"
           [Accounts.Build_PatientAccount 1 "Doe, Jane" "ACC-1" "medicare" None None
              (Some (Some "CO-16")) None None None None
              (Some (Some (String dq "call back"))) "session-1" 0 0]
           eq_refl eq_refl eq_refl eq_refl eq_refl eq_refl).
Defined.

End CsvFacts.

(* ------------------------------------------------------------------ *)
(** ** Closing a tab *)

Module TabsFacts.
Import Accounts Tabs.

Lemma filter_head_not (accounts : list PatientAccount) (i : Z) (acc : PatientAccount)
    (rest : list PatientAccount) :
  List.filter (fun acc => negb (Z.eqb acc.(id) i)) accounts = acc :: rest ->
  acc.(id) <> i /\ In acc accounts.
Proof.
  intros E. assert (Hin : In acc (List.filter (fun acc => negb (Z.eqb acc.(id) i)) accounts))
    by (rewrite E; left; reflexivity).
  apply filter_In in Hin as [Hin Hne]. apply negb_true_iff, Z.eqb_neq in Hne. auto.
Qed.

(** X12: closing a tab never leaves it active; a different active tab is
    kept; when the closed tab was active, the next active tab is an
    account of the list other than the closed one, and there is none
    exactly when every account of the list has the closed id. *)
Theorem closeTab_active_spec (accounts : list PatientAccount) (activeTabId : option Z)
    (accountId : Z) :
  closeTab_active accounts activeTabId accountId <> Some accountId
  /\ (activeTabId <> Some accountId -> closeTab_active accounts activeTabId accountId = activeTabId)
  /\ (activeTabId = Some accountId ->
      (forall j, closeTab_active accounts activeTabId accountId = Some j ->
                 exists acc, In acc accounts /\ acc.(id) = j)
      /\ (closeTab_active accounts activeTabId accountId = None
          <-> forall acc, In acc accounts -> acc.(id) = accountId)).
Proof.
  unfold closeTab_active.
  destruct activeTabId as [a|]; [|split; [discriminate|split; [reflexivity|discriminate]]].
  destruct (Z.eqb_spec a accountId) as [->|Hne].
  - destruct (List.filter (fun acc => negb (Z.eqb acc.(id) accountId)) accounts)
      as [|acc rest] eqn:E.
    + split; [discriminate|split; [congruence|intros _]].
      split; [intros j Hj; discriminate|].
      split; [|reflexivity]. intros _ acc Hin.
      destruct (Z.eqb_spec acc.(id) accountId) as [Heq|Hne]; [exact Heq|].
      assert (Hf : In acc (List.filter (fun acc => negb (Z.eqb acc.(id) accountId)) accounts)).
      { apply filter_In. split; [exact Hin|]. apply negb_true_iff, Z.eqb_neq. exact Hne. }
      rewrite E in Hf. destruct Hf.
    + destruct (filter_head_not _ _ _ _ E) as [Hid Hin].
      split; [congruence|split; [congruence|intros _]].
      split.
      * intros j Hj. injection Hj as <-. eauto.
      * split; [discriminate|]. intros Hall. exfalso. exact (Hid (Hall acc Hin)).
  - split; [congruence|split; [reflexivity|congruence]].
Qed.

End TabsFacts.
